(** * PPT_FROM_PDF: the outline parser, the text extractor and the deck
      assembler of [ppt_gen.py], embedded as Rocq functions.

    Python [str] values are sequences of Unicode code points; they are
    modelled as [list N].  The [re] patterns of the program are kept as data
    (a list of quantified character classes) and run by a backtracking
    matcher that follows the order in which [re] tries alternatives: greedy
    quantifiers longest first, lazy quantifiers shortest first. *)

From Stdlib Require Import List NArith Arith Lia Bool String Ascii Decimal.
From Stdlib Require DecimalNat DecimalFacts.
From stdpp Require Import base list gmap.
Import ListNotations.

Local Open Scope nat_scope.
Set Warnings "-abstract-large-number".

(** ** Strings *)

Definition str := list N.

(** An ASCII literal of the source, as code points. *)
Definition lit (s : string) : str := map N_of_ascii (list_ascii_of_string s).

Arguments lit s%_string : simpl never.

Fixpoint digits_of_uint (d : Decimal.uint) : str :=
  match d with
  | Nil => []
  | D0 d' => 48%N :: digits_of_uint d'
  | D1 d' => 49%N :: digits_of_uint d'
  | D2 d' => 50%N :: digits_of_uint d'
  | D3 d' => 51%N :: digits_of_uint d'
  | D4 d' => 52%N :: digits_of_uint d'
  | D5 d' => 53%N :: digits_of_uint d'
  | D6 d' => 54%N :: digits_of_uint d'
  | D7 d' => 55%N :: digits_of_uint d'
  | D8 d' => 56%N :: digits_of_uint d'
  | D9 d' => 57%N :: digits_of_uint d'
  end.

(** [str(n)] / the [{n}] field of an f-string, for a non-negative int. *)
Definition str_of_nat (n : nat) : str := digits_of_uint (Nat.to_uint n).

(** ** Character classes of [re] on [str] patterns *)

Definition in_range (lo len c : N) : bool := ((lo <=? c) && (c <? lo + len))%N.

(** [\s] and the default of [str.strip]: the code points for which
    [Py_UNICODE_ISSPACE] holds. *)
Definition is_space (c : N) : bool :=
  in_range 9 5 c || in_range 28 5 c || (c =? 133)%N || (c =? 160)%N
  || (c =? 5760)%N || in_range 8192 11 c || in_range 8232 2 c
  || (c =? 8239)%N || (c =? 8287)%N || (c =? 12288)%N.

(** First code point of every run of decimal digits (general category Nd,
    Unicode 14.0, the table of CPython 3.11); every run has ten digits but
    the mathematical digits at 120782, which are five runs in a row. *)
Definition decimal_runs : list (N * N) :=
  map (fun z => (z, 10%N))
    [48; 1632; 1776; 1984; 2406; 2534; 2662; 2790; 2918; 3046; 3174; 3302;
     3430; 3558; 3664; 3792; 3872; 4160; 4240; 6112; 6160; 6470; 6608; 6784;
     6800; 6992; 7088; 7232; 7248; 42528; 43216; 43264; 43472; 43504; 43600;
     44016; 65296; 66720; 68912; 69734; 69872; 69942; 70096; 70384; 70736;
     70864; 71248; 71360; 71472; 71904; 72016; 72784; 73040; 73120; 92768;
     92864; 93008; 123200; 123632; 125264; 130032]%N
  ++ [(120782, 50)]%N.

(** [\d] *)
Definition is_decimal (c : N) : bool :=
  existsb (fun r => in_range (fst r) (snd r) c) decimal_runs.

(** [.] without DOTALL: anything but a line feed. *)
Definition is_dot (c : N) : bool := negb (c =? 10)%N.

Definition is_char (k c : N) : bool := (c =? k)%N.

(** ** Patterns and the backtracking matcher *)

Inductive quant := One | Star | Plus | LazyStar.

(** One quantified character class; [grp] marks the class as the body of
    capture group 1. *)
Record atom := Atom { cls : N -> bool; qnt : quant; grp : bool }.

Definition regex := list atom.

(** A match: the matched text, the text of group 1, the input left over. *)
Definition mres : Type := str * str * str.

Definition emit (g : bool) (x : N) (r : option mres) : option mres :=
  match r with
  | Some (m, c, t) => Some (x :: m, if g then x :: c else c, t)
  | None => None
  end.

Definition or_else (r : option mres) (alt : option mres) : option mres :=
  match r with
  | Some _ => r
  | None => alt
  end.

Section Loops.
Variable a : atom.
Variable k : str -> option mres.

(** [X*]: take one more character first, fall back to the rest of the
    pattern. *)
Fixpoint greedy (s : str) : option mres :=
  match s with
  | x :: s' =>
      if cls a x then or_else (emit (grp a) x (greedy s')) (k s) else k s
  | [] => k s
  end.

(** [X*?]: try the rest of the pattern first, take one more character
    only when that fails. *)
Fixpoint lazy (s : str) : option mres :=
  match k s with
  | Some r => Some r
  | None =>
      match s with
      | x :: s' => if cls a x then emit (grp a) x (lazy s') else None
      | [] => None
      end
  end.

Definition single (s : str) : option mres :=
  match s with
  | x :: s' => if cls a x then emit (grp a) x (k s') else None
  | [] => None
  end.

Definition at_least_one (s : str) : option mres :=
  match s with
  | x :: s' => if cls a x then emit (grp a) x (greedy s') else None
  | [] => None
  end.
End Loops.

(** Match the pattern at the start of the input ([re]'s anchored match). *)
Fixpoint match_here (p : regex) : str -> option mres :=
  match p with
  | [] => fun s => Some ([], [], s)
  | a :: p' =>
      match qnt a with
      | One => single a (match_here p')
      | Star => greedy a (match_here p')
      | Plus => at_least_one a (match_here p')
      | LazyStar => lazy a (match_here p')
      end
  end.

(** [re.search]: the first position, left to right, where the pattern
    matches; the position after the last character is tried too. *)
Fixpoint re_search (p : regex) (s : str) : option mres :=
  match match_here p s with
  | Some r => Some r
  | None =>
      match s with
      | [] => None
      | _ :: s' => re_search p s'
      end
  end.

(** The scan shared by [re.findall] and [re.split] for a pattern that
    matches no empty text: after a match the scan resumes where the match
    ended, otherwise one character further.  The fuel bounds the number of
    positions visited; [S (length s)] is enough (see [findall_fuel_enough]
    and [split_fuel_enough]). *)
Fixpoint findall_fuel (fuel : nat) (p : regex) (s : str) : list (str * str) :=
  match fuel with
  | O => []
  | S fuel' =>
      match match_here p s with
      | Some (x :: m, g, r) => (x :: m, g) :: findall_fuel fuel' p r
      | _ =>
          match s with
          | [] => []
          | _ :: s' => findall_fuel fuel' p s'
          end
      end
  end.

(** Add a character in front of the first fragment. *)
Definition push (x : N) (l : list str) : list str :=
  match l with
  | f :: l' => (x :: f) :: l'
  | [] => [[x]]
  end.

Fixpoint split_fuel (fuel : nat) (p : regex) (s : str) : list str :=
  match fuel with
  | O => [s]
  | S fuel' =>
      match match_here p s with
      | Some (_ :: _, _, r) => [] :: split_fuel fuel' p r
      | _ =>
          match s with
          | [] => [[]]
          | x :: s' => push x (split_fuel fuel' p s')
          end
      end
  end.

(** [re.findall] for a pattern without groups: the matched texts. *)
Definition re_findall (p : regex) (s : str) : list str :=
  map fst (findall_fuel (S (length s)) p s).

(** [re.findall] for a pattern with one group: the texts of the group. *)
Definition re_findall_group (p : regex) (s : str) : list str :=
  map snd (findall_fuel (S (length s)) p s).

(** [re.split] for a pattern without groups. *)
Definition re_split (p : regex) (s : str) : list str :=
  split_fuel (S (length s)) p s.

(** ** [str.strip] *)

Fixpoint drop_while (f : N -> bool) (s : str) : str :=
  match s with
  | x :: s' => if f x then drop_while f s' else s
  | [] => []
  end.

Definition strip_with (f : N -> bool) (s : str) : str :=
  rev (drop_while f (rev (drop_while f s))).

(** [s.strip()] *)
Definition strip (s : str) : str := strip_with is_space s.

(** [s.strip(chars)] *)
Definition strip_chars (chars : str) (s : str) : str :=
  strip_with (fun c => existsb (N.eqb c) chars) s.

(** ** The three patterns of [parse_gemini_structure] *)

Definition literal (l : str) : regex :=
  map (fun c => Atom (is_char c) One false) l.

Definition exactly (s : string) : regex := literal (lit s).
Arguments exactly s%_string.

(** [\*\*Slide \d+:.*?\*\*] *)
Definition header_re : regex :=
  exactly "**Slide " ++ [Atom is_decimal Plus false]
  ++ exactly ":" ++ [Atom is_dot LazyStar false] ++ exactly "**".

(** [\*\*Title:\*\*\s*] and then group 1, [.*] *)
Definition title_re : regex :=
  exactly "**Title:**" ++ [Atom is_space Star false; Atom is_dot Star true].

(** [\*\s+] and then group 1, [.*] *)
Definition bullet_re : regex :=
  exactly "*" ++ [Atom is_space Plus false; Atom is_dot Star true].

(** ** [parse_gemini_structure] *)

Definition SlideRecord : Type := str * list str.

(** The body of the loop over [enumerate(headers)], for the fragment
    [content] chosen for index [i]. *)
Definition parse_fragment (i : nat) (content : str) : SlideRecord :=
  let title :=
    match re_search title_re content with
    | Some (_, g, _) => strip g
    | None => lit "Slide " ++ str_of_nat (i + 2)
    end in
  let bullets := re_findall_group bullet_re content in
  (title, bullets).

Definition parse_gemini_structure (slide_structure : str) : list SlideRecord :=
  let slides := re_split header_re slide_structure in
  let headers := re_findall header_re slide_structure in
  imap (fun i _ =>
          parse_fragment i
            (if i + 1 <? length slides then nth (i + 1) slides [] else []))
       headers.

(** ** Configuration *)

Definition MAX_SLIDES : nat := 10.
Definition PROCESSING_CHUNK_SIZE : nat := 15000.
Definition MIN_CONTENT_LENGTH : nat := 100.
Definition PPT_FONT : str := lit "Calibri".

(** ** [extract_text_from_pdf]

    The two PDF libraries are outside the program; what the function sees of
    them is whether opening the stream raises and, page by page, whether
    [extract_text] raises, returns [None] or returns a string. *)

Inductive page_outcome :=
| PageText (t : option str)
| PageRaises.

Inductive library_view :=
| OpenRaises
| Pages (l : list page_outcome).

Record pdf_file := PdfFile { pdfplumber_view : library_view;
                             pypdf2_view : library_view }.

(** The text added for page [i] (counted from 0) with text [t]. *)
Definition page_block (i : nat) (t : str) : str :=
  [10; 10]%N ++ lit "[Page " ++ str_of_nat (i + 1) ++ lit "]" ++ [10%N] ++ t.

(** The loop over [enumerate(pages)]; an exception leaves the loop and
    keeps the text gathered so far. *)
Fixpoint read_pages (i : nat) (pages : list page_outcome) (text : str) : str :=
  match pages with
  | [] => text
  | PageRaises :: _ => text
  | PageText t :: rest =>
      let text' :=
        match t with
        | Some (c :: t') => text ++ page_block i (c :: t')
        | _ => text
        end in
      if PROCESSING_CHUNK_SIZE <? length text' then text'
      else read_pages (S i) rest text'
  end.

Definition read_library (v : library_view) (text : str) : str :=
  match v with
  | OpenRaises => text
  | Pages l => read_pages 0 l text
  end.

Definition insufficient_text : str :=
  lit "Failed to extract sufficient text (document may be scanned)".

(** The text gathered by the two passes, as it stands at the final test. *)
Definition gathered_text (f : pdf_file) : str :=
  let text := read_library (pdfplumber_view f) [] in
  if length text <? MIN_CONTENT_LENGTH
  then read_library (pypdf2_view f) text
  else text.

Definition extract_text_from_pdf (f : pdf_file) : option str * option str :=
  let text := gathered_text f in
  if MIN_CONTENT_LENGTH <? length text then (Some text, None)
  else (None, Some insufficient_text).

(** ** The deck built by [create_presentation] *)

Inductive alignment := LEFT.

Record Paragraph := Para {
  p_text : str;
  p_size : option nat;                (* points *)
  p_font : option str;
  p_rgb : option (nat * nat * nat);
  p_align : option alignment }.

(** The paragraph a text frame is left with by [clear()]. *)
Definition blank_paragraph : Paragraph := Para [] None None None None.

(** Layout 0 carries a title and a subtitle, layout 1 a title and a body. *)
Inductive Slide :=
| TitleSlide (title subtitle : str)
| ContentSlide (title : str) (body : list Paragraph).

Definition Deck := list Slide.

Inductive month :=
| January | February | March | April | May | June
| July | August | September | October | November | December.

Definition month_name (m : month) : str :=
  match m with
  | January => lit "January" | February => lit "February"
  | March => lit "March" | April => lit "April" | May => lit "May"
  | June => lit "June" | July => lit "July" | August => lit "August"
  | September => lit "September" | October => lit "October"
  | November => lit "November" | December => lit "December"
  end.

(** The reading of the clock, [datetime.now()], as far as it is used. *)
Record date := Date { year : nat; mon : month; day : nat }.

(** [strftime('%d %B %Y')] *)
Definition strftime_d_B_Y (d : date) : str :=
  (if day d <? 10 then 48%N :: str_of_nat (day d) else str_of_nat (day d))
  ++ lit " " ++ month_name (mon d) ++ lit " " ++ str_of_nat (year d).

(** The characters of [strip("-•* ")]; the second one is U+2022. *)
Definition bullet_glyphs : str := [45; 8226; 42; 32]%N.

Definition bullet_paragraph (bullet : str) : Paragraph :=
  Para (strip (strip_chars bullet_glyphs bullet))
       (Some 18) (Some PPT_FONT) (Some (0, 0, 0)) (Some LEFT).

(** The body of a content slide: the frame is cleared, the first bullet
    goes into the paragraph that is left, every other one into a new
    paragraph. *)
Definition slide_body (bullet_points : list str) : list Paragraph :=
  match bullet_points with
  | [] => [blank_paragraph]
  | _ => map bullet_paragraph bullet_points
  end.

Definition content_slide (r : SlideRecord) : Slide :=
  ContentSlide (fst r) (slide_body (snd r)).

Definition fallback_slides : list SlideRecord :=
  [(lit "Introduction", [lit "Key points missing from AI output"])].

(** The presentation object at the moment it is saved. *)
Definition presentation_slides (ppt_title slide_structure : str) (now : date)
  : Deck :=
  let parsed_slides := parse_gemini_structure slide_structure in
  let parsed_slides :=
    match parsed_slides with
    | [] => fallback_slides
    | _ => parsed_slides
    end in
  TitleSlide ppt_title (lit "Generated on " ++ strftime_d_B_Y now)
  :: map content_slide (take MAX_SLIDES parsed_slides).

(** ** Temporary files

    The file system holds the temporary files by name; a file holds a saved
    deck or nothing yet.  The calls that reach the operating system may
    raise; which of them do is an input. *)

Record faults := Faults { save_raises : bool;
                          read_raises : bool;
                          unlink_raises : bool }.

(** [create_presentation]; its parameters [model] and [pdf_text] are not
    used by the source and are left out.  The result is the name of the
    temporary file, or [None] when saving raised. *)
Definition create_presentation (e : faults) (now : date)
    (ppt_title slide_structure : str) (fs : gmap nat (option Deck))
  : option nat * gmap nat (option Deck) :=
  let prs := presentation_slides ppt_title slide_structure now in
  (* NamedTemporaryFile(delete=False): a new, empty file *)
  let tmp := fresh (dom fs) in
  let fs := <[tmp := None]> fs in
  if save_raises e then (None, fs)
  else (Some tmp, <[tmp := Some prs]> fs).

Inductive outcome :=
| Downloaded (ppt_bytes : option Deck)
| NoArtifact
| Raised.

(** The branch of [main] under the "Generate PowerPoint" button. *)
Definition generate_powerpoint (e : faults) (now : date)
    (ppt_title edited_structure : str) (fs : gmap nat (option Deck))
  : outcome * gmap nat (option Deck) :=
  match create_presentation e now ppt_title edited_structure fs with
  | (Some ppt_path, fs) =>
      if read_raises e then (Raised, fs)
      else
        let ppt_bytes := default None (fs !! ppt_path) in
        (Downloaded ppt_bytes,
         if unlink_raises e then fs else delete ppt_path fs)
  | (None, fs) => (NoArtifact, fs)
  end.

(** ** Text search, for stating what a fragment contains *)

Fixpoint is_prefix (p s : str) : bool :=
  match p, s with
  | [], _ => true
  | c :: p', x :: s' => (x =? c)%N && is_prefix p' s'
  | _ :: _, [] => false
  end.

Fixpoint occurs (p s : str) : bool :=
  is_prefix p s ||
  match s with
  | [] => false
  | _ :: s' => occurs p s'
  end.

Fixpoint take_while (f : N -> bool) (s : str) : str :=
  match s with
  | x :: s' => if f x then x :: take_while f s' else []
  | [] => []
  end.

(** The texts of the language of a pattern, whatever the order in which
    the matcher tries them. *)
Inductive in_lang : regex -> str -> Prop :=
| lang_nil : in_lang [] []
| lang_one a p x m :
    qnt a = One -> cls a x = true -> in_lang p m -> in_lang (a :: p) (x :: m)
| lang_star a p xs m :
    qnt a = Star \/ qnt a = LazyStar ->
    forallb (cls a) xs = true -> in_lang p m -> in_lang (a :: p) (xs ++ m)
| lang_plus a p x xs m :
    qnt a = Plus -> cls a x = true ->
    forallb (cls a) xs = true -> in_lang p m ->
    in_lang (a :: p) (x :: xs ++ m).

(** ** Headers in a text, as the specification counts them

    A header is a text of the language of the header pattern.  A text with
    the headers [hs] is laid out as [f0 h1 f1 ... hK fK]: no header starts
    inside a fragment, and each header is the shortest one that starts where
    it does (headers are counted as [re] finds them: from left to right and
    without overlap). *)

Definition is_header (h : str) : Prop := in_lang header_re h.

Definition header_starts (t : str) : Prop :=
  exists h r, t = h ++ r /\ is_header h.

Inductive header_layout : str -> list str -> list str -> Prop :=
| layout_end s :
    (forall pre t, s = pre ++ t -> ~ header_starts t) ->
    header_layout s [s] []
| layout_header f h r fs hs :
    is_header h ->
    (forall h' z, h = h' ++ z -> z <> [] -> ~ is_header h') ->
    (forall pre t, f = pre ++ t -> t <> [] -> ~ header_starts (t ++ h ++ r)) ->
    header_layout r fs hs ->
    header_layout (f ++ h ++ r) (f :: fs) (h :: hs).

(** ** Auxiliary notions for the statements *)

(** [prepend g xs r]: the match [r] with [xs] matched in front of it. *)
Definition prepend (g : bool) (xs : str) (r : option mres) : option mres :=
  match r with
  | Some (m, c, t) => Some (xs ++ m, (if g then xs else []) ++ c, t)
  | None => None
  end.

(** What [\s*] followed by the group [.*] matches at the start of [t]: the
    longest run of whitespace, then the rest of the line. *)
Definition space_then_line (t : str) : mres :=
  let u := drop_while is_space t in
  (take_while is_space t ++ take_while is_dot u,
   take_while is_dot u, drop_while is_dot u).

(** The texts [bs] occur in [s] one after the other, in this order. *)
Inductive in_order : list str -> str -> Prop :=
| in_order_nil s : in_order [] s
| in_order_cons b bs pre post :
    in_order bs post -> in_order (b :: bs) (pre ++ b ++ post).

Definition head_is (f : N -> bool) (s : str) : bool :=
  match s with
  | x :: _ => f x
  | [] => false
  end.

Definition is_glyph (c : N) : bool := existsb (N.eqb c) bullet_glyphs.

(** The trimming applied to a bullet when it is rendered. *)
Definition trim_bullet (b : str) : str := strip (strip_chars bullet_glyphs b).






(** A whitespace character other than the space is the only thing that
    can shield a glyph from [strip("-•* ")]. *)
Definition plain_space (c : N) : bool := negb (is_space c) || (c =? 32)%N.

(** A page that adds nothing to the text. *)
Definition textless (pg : page_outcome) : Prop :=
  pg = PageText None \/ pg = PageText (Some []).

Definition quoted (s : str) : str := 34%N :: s ++ [34%N].


(** ** [generate_slide_structure]

    The remote model is a function from the prompt to its reply, or to the
    text of the exception that the call raises. *)

Definition prompt_of (pdf_text ppt_title : str) : str :=
  [10%N]
  ++ lit "You are an expert presentation designer. Based on the content below, create a PowerPoint structure for the title: "
  ++ quoted ppt_title ++ lit "." ++ [10; 10]%N
  ++ lit "PDF CONTENT:" ++ [10%N]
  ++ take PROCESSING_CHUNK_SIZE pdf_text ++ [10; 10]%N
  ++ lit "Return exactly 5 slides in this format:" ++ [10%N]
  ++ lit "**Slide 1: [Title Slide]**" ++ [10%N]
  ++ lit "* **Title:** " ++ quoted ppt_title ++ [10%N]
  ++ lit "* **Subtitle:** " ++ quoted (lit "[1-line summary]") ++ [10; 10]%N
  ++ lit "**Slide 2: [Introduction]**" ++ [10%N]
  ++ lit "* **Title:** " ++ quoted (lit "Intro title") ++ [10%N]
  ++ lit "* **Bullet Points:**" ++ [10%N]
  ++ lit "    * Bullet 1" ++ [10%N]
  ++ lit "    * Bullet 2" ++ [10; 10]%N
  ++ lit "...repeat for 5 slides total." ++ [10%N].

Definition generate_slide_structure (model : str -> str + str)
    (pdf_text ppt_title : str) : option str * option str :=
  match model (prompt_of pdf_text ppt_title) with
  | inl text => (Some (strip text), None)
  | inr e => (None, Some (lit "Structure generation failed: " ++ e))
  end.

(** ** The name of the download, in [main] *)

(** [s.replace(old, new)] for one-character [old] and [new]. *)
Definition replace_char (old new : N) (s : str) : str :=
  map (fun c => if (c =? old)%N then new else c) s.

Definition download_file_name (ppt_title : str) : str :=
  replace_char 32 95 ppt_title ++ lit ".pptx".

(** ** Putting fragments and matches back together *)

Fixpoint weave (fs hs : list str) : str :=
  match fs with
  | [] => []
  | f :: fs' =>
      f ++ match hs with
           | [] => []
           | h :: hs' => h ++ weave fs' hs'
           end
  end.

(** The text after one page of a pass. *)
Definition page_step (i : nat) (t : option str) (text : str) : str :=
  match t with
  | Some (c :: t') => text ++ page_block i (c :: t')
  | _ => text
  end.

(** A character that is no asterisk: no pattern of the parser can start a
    match on it. *)
Definition not_star (c : N) : bool := negb (c =? 42)%N.

(** The texts of a content slide have no line feed. *)
Definition single_lines (sl : Slide) : Prop :=
  match sl with
  | TitleSlide _ _ => True
  | ContentSlide title body =>
      forallb is_dot title = true
      /\ Forall (fun p => forallb is_dot (p_text p) = true) body
  end.

Definition is_content_slide (sl : Slide) : bool :=
  match sl with
  | TitleSlide _ _ => false
  | ContentSlide _ body => match body with [] => false | _ => true end
  end.

(** * Properties of the matcher *)

Lemma emit_prepend g x r : emit g x r = prepend g [x] r.
Proof. destruct r as [[[m c] t]|]; simpl; [destruct g|]; reflexivity. Qed.

Lemma prepend_nil g r : prepend g [] r = r.
Proof. destruct r as [[[m c] t]|]; simpl; [destruct g|]; reflexivity. Qed.

Lemma prepend_app g xs ys r :
  prepend g (xs ++ ys) r = prepend g xs (prepend g ys r).
Proof.
  destruct r as [[[m c] t]|]; simpl; [|reflexivity].
  destruct g; simpl; rewrite <- ?app_assoc; reflexivity.
Qed.

Lemma prepend_Some g xs r m c t :
  prepend g xs r = Some (m, c, t) ->
  exists m' c', r = Some (m', c', t) /\ m = xs ++ m'
                /\ c = (if g then xs else []) ++ c'.
Proof.
  destruct r as [[[m' c'] t']|]; simpl; [|discriminate].
  intros [= <- <- <-]. eauto.
Qed.

Lemma prepend_is_Some g xs r : is_Some r -> is_Some (prepend g xs r).
Proof. intros [[[m c] t] ->]. simpl. eauto. Qed.

Lemma or_else_is_Some r alt : is_Some alt -> is_Some (or_else r alt).
Proof. destruct r; simpl; eauto. Qed.

Section LoopFacts.
Variable a : atom.
Variable k : str -> option mres.
Variable L : str -> Prop.
Hypothesis k_sound : forall s m g r, k s = Some (m, g, r) -> L m /\ s = m ++ r.

Lemma single_sound s m g r :
  single a k s = Some (m, g, r) ->
  exists x m', m = x :: m' /\ cls a x = true /\ L m' /\ s = m ++ r.
Proof.
  destruct s as [|x s']; simpl; [discriminate|].
  destruct (cls a x) eqn:Hx; [|discriminate].
  rewrite emit_prepend. intros H.
  apply prepend_Some in H as (m' & c' & Hk & -> & ->).
  apply k_sound in Hk as [HL ->]. exists x, m'. auto.
Qed.

Lemma greedy_sound s : forall m g r,
  greedy a k s = Some (m, g, r) ->
  exists xs m', m = xs ++ m' /\ forallb (cls a) xs = true /\ L m'
                /\ s = m ++ r.
Proof.
  assert (Hbase : forall s m g r, k s = Some (m, g, r) ->
            exists xs m', m = xs ++ m' /\ forallb (cls a) xs = true /\ L m'
                          /\ s = m ++ r).
  { intros s0 m g r Hk. apply k_sound in Hk as [HL ->].
    exists [], m. auto. }
  induction s as [|x s' IH]; intros m g r; simpl; [apply Hbase|].
  destruct (cls a x) eqn:Hx; [|apply Hbase].
  destruct (emit (grp a) x (greedy a k s')) as [[[m1 c1] t1]|] eqn:He;
    simpl; [|apply Hbase].
  intros [= <- <- <-]. rewrite emit_prepend in He.
  apply prepend_Some in He as (m' & c' & Hg & -> & ->).
  apply IH in Hg as (xs & m2 & -> & Hxs & HL & ->).
  exists (x :: xs), m2. simpl. rewrite Hx, Hxs. auto.
Qed.

Lemma at_least_one_sound s m g r :
  at_least_one a k s = Some (m, g, r) ->
  exists x xs m', m = x :: xs ++ m' /\ cls a x = true
                  /\ forallb (cls a) xs = true /\ L m' /\ s = m ++ r.
Proof.
  destruct s as [|x s']; simpl; [discriminate|].
  destruct (cls a x) eqn:Hx; [|discriminate].
  rewrite emit_prepend. intros H.
  apply prepend_Some in H as (m' & c' & Hg & -> & ->).
  apply greedy_sound in Hg as (xs & m2 & -> & Hxs & HL & ->).
  exists x, xs, m2. auto.
Qed.

Lemma lazy_sound s : forall m g r,
  lazy a k s = Some (m, g, r) ->
  exists xs m', m = xs ++ m' /\ forallb (cls a) xs = true /\ L m'
                /\ s = m ++ r.
Proof.
  induction s as [|x s' IH]; intros m g r; simpl.
  - destruct (k []) as [[[m1 c1] t1]|] eqn:Hk; [|discriminate].
    intros [= <- <- <-]. apply k_sound in Hk as [HL Hs].
    exists [], m1. auto.
  - destruct (k (x :: s')) as [[[m1 c1] t1]|] eqn:Hk.
    + intros [= <- <- <-]. apply k_sound in Hk as [HL Hs].
      exists [], m1. auto.
    + destruct (cls a x) eqn:Hx; [|discriminate].
      rewrite emit_prepend. intros H.
      apply prepend_Some in H as (m' & c' & Hg & -> & ->).
      apply IH in Hg as (xs & m2 & -> & Hxs & HL & ->).
      exists (x :: xs), m2. simpl. rewrite Hx, Hxs. auto.
Qed.

Lemma greedy_complete xs s :
  forallb (cls a) xs = true -> is_Some (k s) -> is_Some (greedy a k (xs ++ s)).
Proof.
  intros Hxs Hk. induction xs as [|x xs IH]; simpl.
  - destruct s as [|y s']; simpl; [assumption|].
    destruct (cls a y); [apply or_else_is_Some|]; assumption.
  - simpl in Hxs. apply andb_prop in Hxs as [Hx Hxs]. rewrite Hx.
    destruct (IH Hxs) as [[[m c] t] ->]. simpl. eauto.
Qed.

Lemma lazy_complete xs s :
  forallb (cls a) xs = true -> is_Some (k s) -> is_Some (lazy a k (xs ++ s)).
Proof.
  intros Hxs Hk. induction xs as [|x xs IH]; simpl.
  - destruct s as [|y s']; simpl; destruct Hk as [r ->]; eauto.
  - simpl in Hxs. apply andb_prop in Hxs as [Hx Hxs]. rewrite Hx.
    destruct (k (x :: xs ++ s)); [eauto|].
    destruct (IH Hxs) as [[[m c] t] ->]. simpl. eauto.
Qed.
End LoopFacts.

(** What the matcher returns is a text of the language of the pattern,
    and a prefix of the input. *)
Lemma match_here_sound p : forall s m g r,
  match_here p s = Some (m, g, r) -> in_lang p m /\ s = m ++ r.
Proof.
  induction p as [|a p IH]; intros s m g r; simpl.
  - intros [= <- <- <-]. split; [constructor|reflexivity].
  - destruct (qnt a) eqn:Hq; intros H.
    + eapply single_sound in H as (x & m' & -> & Hx & HL & ->); [|exact IH].
      split; [apply lang_one; assumption|reflexivity].
    + eapply greedy_sound in H as (xs & m' & -> & Hxs & HL & ->); [|exact IH].
      split; [apply lang_star; auto|reflexivity].
    + eapply at_least_one_sound in H
        as (x & xs & m' & -> & Hx & Hxs & HL & ->); [|exact IH].
      split; [apply lang_plus; auto|reflexivity].
    + eapply lazy_sound in H as (xs & m' & -> & Hxs & HL & ->); [|exact IH].
      split; [apply lang_star; auto|reflexivity].
Qed.

(** Backtracking misses nothing: where some prefix of the input is in the
    language, the matcher returns a match. *)
Lemma match_here_complete p m :
  in_lang p m -> forall r, is_Some (match_here p (m ++ r)).
Proof.
  induction 1 as [|a p x m Hq Hx _ IH|a p xs m Hq Hxs _ IH
                  |a p x xs m Hq Hx Hxs _ IH]; intros r; simpl.
  - eauto.
  - rewrite Hq. simpl. rewrite Hx. destruct (IH r) as [[[m1 c1] t1] ->].
    simpl. eauto.
  - rewrite <- app_assoc.
    destruct Hq as [-> | ->];
      [apply greedy_complete|apply lazy_complete]; auto.
  - rewrite Hq. simpl. rewrite Hx, <- app_assoc.
    destruct (greedy_complete a (match_here p) xs (m ++ r) Hxs (IH r))
      as [[[m1 c1] t1] ->].
    simpl. eauto.
Qed.

(** ** Runs of characters *)

Lemma take_drop_while f s : take_while f s ++ drop_while f s = s.
Proof.
  induction s as [|x s IH]; simpl; [reflexivity|].
  destruct (f x); simpl; [rewrite IH|]; reflexivity.
Qed.

Lemma take_while_all f s : forallb f (take_while f s) = true.
Proof.
  induction s as [|x s IH]; simpl; [reflexivity|].
  destruct (f x) eqn:Hx; simpl; [rewrite Hx, IH|]; reflexivity.
Qed.

Lemma drop_while_head f s x s' : drop_while f s = x :: s' -> f x = false.
Proof.
  induction s as [|y s IH]; simpl; [discriminate|].
  destruct (f y) eqn:Hy; [exact IH|]. intros [= -> _]. exact Hy.
Qed.

Lemma take_while_app_stop f xs s :
  forallb f xs = true -> (forall y s', s = y :: s' -> f y = false) ->
  take_while f (xs ++ s) = xs /\ drop_while f (xs ++ s) = s.
Proof.
  intros Hxs Hs. induction xs as [|x xs IH]; simpl.
  - destruct s as [|y s']; simpl; [auto|]. rewrite (Hs y s' eq_refl). auto.
  - simpl in Hxs. apply andb_prop in Hxs as [-> Hxs].
    destruct (IH Hxs) as [-> ->]. auto.
Qed.

(** ** The loops, when no backtracking can change the outcome *)

Section Runs.
Variable a : atom.
Variable k : str -> option mres.

Lemma greedy_total s :
  (forall t, is_Some (k t)) ->
  greedy a k s
  = prepend (grp a) (take_while (cls a) s) (k (drop_while (cls a) s)).
Proof.
  intros Hk. induction s as [|x s IH]; simpl.
  - rewrite prepend_nil. reflexivity.
  - destruct (cls a x) eqn:Hx; [|rewrite prepend_nil; reflexivity].
    rewrite IH, emit_prepend, <- prepend_app. simpl.
    destruct (prepend_is_Some (grp a) (x :: take_while (cls a) s) _
                (Hk (drop_while (cls a) s))) as [r ->].
    reflexivity.
Qed.

Lemma greedy_locked s :
  (forall x t, cls a x = true -> k (x :: t) = None) ->
  greedy a k s
  = prepend (grp a) (take_while (cls a) s) (k (drop_while (cls a) s)).
Proof.
  intros Hk. induction s as [|x s IH]; simpl.
  - rewrite prepend_nil. reflexivity.
  - destruct (cls a x) eqn:Hx; [|rewrite prepend_nil; reflexivity].
    rewrite IH, emit_prepend, <- prepend_app. simpl.
    destruct (prepend (grp a) (x :: _) _) as [r|]; simpl; [reflexivity|].
    apply Hk, Hx.
Qed.

(** The lazy loop stops at the first place where the rest of the
    pattern matches. *)
Lemma lazy_first s : forall m g r,
  lazy a k s = Some (m, g, r) ->
  exists xs t,
    s = xs ++ t /\ forallb (cls a) xs = true
    /\ prepend (grp a) xs (k t) = Some (m, g, r)
    /\ forall ys zs, xs = ys ++ zs -> zs <> [] -> k (zs ++ t) = None.
Proof.
  induction s as [|x s IH]; intros m g r; simpl.
  - destruct (k []) as [r0|] eqn:Hk; [|discriminate].
    intros [= ->]. exists [], []. rewrite prepend_nil.
    repeat split; auto. intros [|] [|]; simpl; congruence.
  - destruct (k (x :: s)) as [r0|] eqn:Hk.
    + intros [= ->]. exists [], (x :: s). rewrite prepend_nil.
      repeat split; auto. intros [|] [|]; simpl; congruence.
    + destruct (cls a x) eqn:Hx; [|discriminate].
      rewrite emit_prepend. intros H.
      destruct (lazy a k s) as [[[m1 c1] t1]|] eqn:Hl; [|discriminate].
      destruct (IH _ _ _ eq_refl) as (xs & t & -> & Hxs & Hp & Hmin).
      exists (x :: xs), t. simpl. rewrite Hx, Hxs.
      repeat split; auto.
      * change (x :: xs) with ([x] ++ xs). rewrite prepend_app, Hp. exact H.
      * intros [|y ys] zs Hz Hne; simpl in Hz.
        -- subst zs. exact Hk.
        -- injection Hz as -> ->. eapply Hmin; eauto.
Qed.
End Runs.

(** A literal part of a pattern matches the literal and nothing else. *)
Lemma match_here_exact l p : forall s,
  match_here (literal l ++ p) s
  = if is_prefix l s then prepend false l (match_here p (drop (length l) s))
    else None.
Proof.
  induction l as [|c l IH]; intros s; simpl.
  - rewrite prepend_nil. reflexivity.
  - destruct s as [|x s]; simpl; [reflexivity|].
    unfold is_char. destruct (x =? c)%N eqn:Hx; simpl; [|reflexivity].
    apply N.eqb_eq in Hx as ->. rewrite emit_prepend.
    fold (literal l). rewrite IH.
    destruct (is_prefix l s); [|reflexivity].
    change (c :: l) with ([c] ++ l). rewrite prepend_app. reflexivity.
Qed.

Lemma is_prefix_spec l s :
  is_prefix l s = true <-> exists t, s = l ++ t.
Proof.
  revert s. induction l as [|c l IH]; intros s; simpl.
  - split; eauto.
  - destruct s as [|x s]; simpl.
    + split; [discriminate|]. intros [t Ht]. discriminate.
    + rewrite andb_true_iff, N.eqb_eq, IH. split.
      * intros [-> [t ->]]. eauto.
      * intros [t [= -> ->]]. eauto.
Qed.

Lemma is_prefix_drop l s : is_prefix l s = true -> s = l ++ drop (length l) s.
Proof.
  intros H. apply is_prefix_spec in H as [t ->].
  rewrite drop_app_length. reflexivity.
Qed.

Lemma occurs_spec l s :
  occurs l s = true <-> exists pre post, s = pre ++ l ++ post.
Proof.
  induction s as [|x s IH]; simpl.
  - rewrite orb_false_r, is_prefix_spec. split.
    + intros [t ->]. exists [], t. reflexivity.
    + intros (pre & post & H). destruct pre; [eauto|discriminate].
  - rewrite orb_true_iff, is_prefix_spec, IH. split.
    + intros [[t ->] | (pre & post & ->)].
      * exists [], t. reflexivity.
      * exists (x :: pre), post. reflexivity.
    + intros ([|y pre] & post & H); simpl in H.
      * left. eauto.
      * injection H as -> ->. right. eauto.
Qed.

(** ** The scans of [re.findall] and [re.split] *)

Lemma match_here_shorter p s x m g r :
  match_here p s = Some (x :: m, g, r) -> length r < length s.
Proof.
  intros H. apply match_here_sound in H as [_ ->].
  rewrite length_app. simpl. lia.
Qed.

Lemma findall_fuel_enough p : forall f1 f2 s,
  length s < f1 -> length s < f2 -> findall_fuel f1 p s = findall_fuel f2 p s.
Proof.
  induction f1 as [|f1 IH]; intros [|f2] s H1 H2; try lia. simpl.
  destruct (match_here p s) as [[[[|x m] g] r]|] eqn:Hm.
  - destruct s as [|y s]; [reflexivity|]. apply IH; simpl in *; lia.
  - f_equal. apply match_here_shorter in Hm. apply IH; lia.
  - destruct s as [|y s]; [reflexivity|]. apply IH; simpl in *; lia.
Qed.

Lemma split_fuel_enough p : forall f1 f2 s,
  length s < f1 -> length s < f2 -> split_fuel f1 p s = split_fuel f2 p s.
Proof.
  induction f1 as [|f1 IH]; intros [|f2] s H1 H2; try lia. simpl.
  destruct (match_here p s) as [[[[|x m] g] r]|] eqn:Hm.
  - destruct s as [|y s]; [reflexivity|]. f_equal. apply IH; simpl in *; lia.
  - f_equal. apply match_here_shorter in Hm. apply IH; lia.
  - destruct s as [|y s]; [reflexivity|]. f_equal. apply IH; simpl in *; lia.
Qed.

Lemma findall_fuel_S fuel p s :
  findall_fuel (S fuel) p s
  = match match_here p s with
    | Some (x :: m, g, r) => (x :: m, g) :: findall_fuel fuel p r
    | _ => match s with
           | [] => []
           | _ :: s' => findall_fuel fuel p s'
           end
    end.
Proof. reflexivity. Qed.

Lemma split_fuel_S fuel p s :
  split_fuel (S fuel) p s
  = match match_here p s with
    | Some (_ :: _, _, r) => [] :: split_fuel fuel p r
    | _ => match s with
           | [] => [[]]
           | x :: s' => push x (split_fuel fuel p s')
           end
    end.
Proof. reflexivity. Qed.

Lemma findall_hit p s x m g r :
  match_here p s = Some (x :: m, g, r) ->
  findall_fuel (S (length s)) p s
  = (x :: m, g) :: findall_fuel (S (length r)) p r.
Proof.
  intros Hm. rewrite findall_fuel_S, Hm. f_equal.
  apply match_here_shorter in Hm. apply findall_fuel_enough; lia.
Qed.

Lemma findall_miss p y s :
  (forall x m g r, match_here p (y :: s) <> Some (x :: m, g, r)) ->
  findall_fuel (S (length (y :: s))) p (y :: s)
  = findall_fuel (S (length s)) p s.
Proof.
  intros Hm. rewrite findall_fuel_S.
  destruct (match_here p (y :: s)) as [[[[|x m] g] r]|] eqn:E;
    try (apply findall_fuel_enough; simpl; lia).
  destruct (Hm _ _ _ _ eq_refl).
Qed.

Lemma findall_nil p : findall_fuel 1 p [] = [].
Proof.
  simpl. destruct (match_here p []) as [[[[|x m] g] r]|] eqn:E; try reflexivity.
  apply match_here_shorter in E. simpl in E. lia.
Qed.

Lemma split_hit p s x m g r :
  match_here p s = Some (x :: m, g, r) ->
  split_fuel (S (length s)) p s = [] :: split_fuel (S (length r)) p r.
Proof.
  intros Hm. rewrite split_fuel_S, Hm. f_equal.
  apply match_here_shorter in Hm. apply split_fuel_enough; lia.
Qed.

Lemma split_miss p y s :
  (forall x m g r, match_here p (y :: s) <> Some (x :: m, g, r)) ->
  split_fuel (S (length (y :: s))) p (y :: s)
  = push y (split_fuel (S (length s)) p s).
Proof.
  intros Hm. rewrite split_fuel_S.
  destruct (match_here p (y :: s)) as [[[[|x m] g] r]|] eqn:E;
    try (f_equal; apply split_fuel_enough; simpl; lia).
  destruct (Hm _ _ _ _ eq_refl).
Qed.

Lemma split_nil p : split_fuel 1 p [] = [[]].
Proof.
  simpl. destruct (match_here p []) as [[[[|x m] g] r]|] eqn:E; try reflexivity.
  apply match_here_shorter in E. simpl in E. lia.
Qed.

(** [re.split] returns one fragment more than [re.findall] returns
    matches, so the guard [i+1 < len(slides)] of the parser always holds. *)
Lemma split_length_findall p : forall fuel s,
  length s < fuel ->
  length (split_fuel fuel p s) = S (length (findall_fuel fuel p s)).
Proof.
  induction fuel as [|fuel IH]; intros s Hs; [lia|]. simpl.
  assert (Hpush : forall y t, length t < fuel ->
            length (push y (split_fuel fuel p t))
            = S (length (findall_fuel fuel p t))).
  { intros y t Ht. specialize (IH t Ht).
    destruct (split_fuel fuel p t); simpl in *; lia. }
  destruct (match_here p s) as [[[[|x m] g] r]|] eqn:Hm.
  - destruct s as [|y s]; [reflexivity|]. apply Hpush. simpl in Hs. lia.
  - simpl. f_equal. apply IH. apply match_here_shorter in Hm. lia.
  - destruct s as [|y s]; [reflexivity|]. apply Hpush. simpl in Hs. lia.
Qed.

Lemma re_split_length p s :
  length (re_split p s) = S (length (re_findall p s)).
Proof.
  unfold re_split, re_findall. rewrite length_map.
  apply split_length_findall. lia.
Qed.

(** ** The language of a pattern, part by part *)

Lemma in_lang_nil_inv m : in_lang [] m -> m = [].
Proof. inversion 1. reflexivity. Qed.

Lemma in_lang_one_inv a p m :
  qnt a = One -> in_lang (a :: p) m ->
  exists x m', m = x :: m' /\ cls a x = true /\ in_lang p m'.
Proof.
  intros Hq H.
  inversion H as [|a' p' x m' Hq' Hx Hm|a' p' xs m' Hq' Hxs Hm
                  |a' p' x xs m' Hq' Hx Hxs Hm]; subst.
  - eauto.
  - destruct Hq'; congruence.
  - congruence.
Qed.

Lemma in_lang_plus_inv a p m :
  qnt a = Plus -> in_lang (a :: p) m ->
  exists x xs m', m = x :: xs ++ m' /\ cls a x = true
                  /\ forallb (cls a) xs = true /\ in_lang p m'.
Proof.
  intros Hq H.
  inversion H as [|a' p' x m' Hq' Hx Hm|a' p' xs m' Hq' Hxs Hm
                  |a' p' x xs m' Hq' Hx Hxs Hm]; subst.
  - congruence.
  - destruct Hq'; congruence.
  - eauto 8.
Qed.

Lemma in_lang_star_inv a p m :
  qnt a = Star \/ qnt a = LazyStar -> in_lang (a :: p) m ->
  exists xs m', m = xs ++ m' /\ forallb (cls a) xs = true /\ in_lang p m'.
Proof.
  intros Hq H.
  inversion H as [|a' p' x m' Hq' Hx Hm|a' p' xs m' Hq' Hxs Hm
                  |a' p' x xs m' Hq' Hx Hxs Hm]; subst.
  - destruct Hq; congruence.
  - eauto.
  - destruct Hq; congruence.
Qed.

Lemma in_lang_exact l p : forall m,
  in_lang (literal l ++ p) m <-> exists m', m = l ++ m' /\ in_lang p m'.
Proof.
  induction l as [|c l IH]; intros m; simpl.
  - split; [eauto|]. intros (m' & -> & H). exact H.
  - split.
    + intros H. apply in_lang_one_inv in H as (x & m' & -> & Hx & H);
        [|reflexivity].
      apply N.eqb_eq in Hx as ->. apply IH in H as (m2 & -> & H). eauto.
    + intros (m' & -> & H). simpl. apply lang_one; [reflexivity| |].
      * apply N.eqb_refl.
      * apply IH. eauto.
Qed.

Lemma in_lang_exact_end l m : in_lang (literal l) m <-> m = l.
Proof.
  rewrite <- (app_nil_r (literal l)), in_lang_exact. split.
  - intros (m' & -> & H). apply in_lang_nil_inv in H as ->.
    apply app_nil_r.
  - intros ->. exists []. rewrite app_nil_r. split; [reflexivity|constructor].
Qed.

(** The headers, spelled out: [**Slide ], one decimal digit or more, a
    colon, any text without a line feed, [**]. *)
Lemma is_header_shape h :
  is_header h <->
  exists ds body,
    h = lit "**Slide " ++ ds ++ 58%N :: body ++ lit "**"
    /\ ds <> [] /\ forallb is_decimal ds = true
    /\ forallb is_dot body = true.
Proof.
  unfold is_header, header_re, exactly. rewrite in_lang_exact. split.
  - intros (m1 & -> & H).
    apply (in_lang_plus_inv (Atom is_decimal Plus false)) in H
      as (x & xs & m2 & -> & Hx & Hxs & H); [|reflexivity].
    apply in_lang_exact in H as (m3 & -> & H).
    apply (in_lang_star_inv (Atom is_dot LazyStar false)) in H
      as (body & m4 & -> & Hbody & H); [|right; reflexivity].
    apply in_lang_exact_end in H as ->.
    exists (x :: xs), body. cbn [forallb cls] in *. rewrite Hx, Hxs.
    split; [reflexivity|]. split; [discriminate|]. auto.
  - intros (ds & body & -> & Hne & Hds & Hbody).
    destruct ds as [|x xs]; [congruence|]. cbn [forallb] in Hds.
    apply andb_prop in Hds as [Hx Hxs].
    eexists. split; [reflexivity|].
    change (((x :: xs) ++ 58%N :: body ++ lit "**"))
      with (x :: xs ++ (lit ":" ++ body ++ lit "**")).
    apply (lang_plus (Atom is_decimal Plus false)); auto.
    apply in_lang_exact. eexists. split; [reflexivity|].
    apply (lang_star (Atom is_dot LazyStar false)); auto.
    apply in_lang_exact_end. reflexivity.
Qed.

Lemma run_then_stop (f : N -> bool) c : forall xs ys X Y,
  forallb f xs = true -> forallb f ys = true -> f c = false ->
  xs ++ c :: X = ys ++ c :: Y -> xs = ys /\ X = Y.
Proof.
  induction xs as [|x xs IH]; intros [|y ys] X Y Hxs Hys Hc E; simpl in *.
  - injection E as ->. auto.
  - injection E as <- _. apply andb_prop in Hys as [Hy _]. congruence.
  - injection E as -> _. apply andb_prop in Hxs as [Hx _]. congruence.
  - injection E as -> E. apply andb_prop in Hxs as [_ Hxs].
    apply andb_prop in Hys as [_ Hys].
    destruct (IH ys X Y Hxs Hys Hc E) as [-> ->]. auto.
Qed.

Lemma decimal_not_colon x : is_decimal x = true -> (x =? 58)%N = false.
Proof.
  intros Hx. destruct (x =? 58)%N eqn:E; [|reflexivity].
  apply N.eqb_eq in E as ->. vm_compute in Hx. discriminate.
Qed.

(** The header pattern is lazy: of the headers that start at a position
    the matcher returns the shortest. *)
Lemma header_match_shortest t m g r :
  match_here header_re t = Some (m, g, r) ->
  forall h' z, m = h' ++ z -> z <> [] -> ~ is_header h'.
Proof.
  unfold header_re, exactly. rewrite match_here_exact.
  destruct (is_prefix _ t); [|discriminate].
  intros H. apply prepend_Some in H as (m1 & c1 & H & -> & ->).
  set (t1 := drop _ t) in H. clearbody t1.
  change (match_here ([Atom is_decimal Plus false] ++ ?q))
    with (at_least_one (Atom is_decimal Plus false) (match_here q)) in H.
  destruct t1 as [|x t1]; cbn [at_least_one cls grp] in H; [discriminate|].
  destruct (is_decimal x) eqn:Hx; [|discriminate].
  rewrite emit_prepend in H.
  apply prepend_Some in H as (m2 & c2 & H & -> & ->).
  rewrite greedy_locked in H.
  2:{ intros y u Hy. rewrite match_here_exact.
      change (is_prefix (lit ":") (y :: u)) with ((y =? 58)%N && true).
      rewrite (decimal_not_colon y Hy). reflexivity. }
  cbn [cls grp] in H.
  apply prepend_Some in H as (m3 & c3 & H & -> & ->).
  pose proof (take_while_all is_decimal t1) as Hds.
  set (ds := take_while is_decimal t1) in *. clearbody ds.
  set (t2 := drop_while is_decimal t1) in H. clearbody t2.
  rewrite match_here_exact in H.
  destruct (is_prefix _ t2); [|discriminate].
  apply prepend_Some in H as (m4 & c4 & H & -> & ->).
  set (t3 := drop _ t2) in H. clearbody t3.
  change (match_here ([Atom is_dot LazyStar false] ++ ?q))
    with (lazy (Atom is_dot LazyStar false) (match_here q)) in H.
  apply lazy_first in H as (xs & t4 & -> & Hxs & H & Hmin).
  apply prepend_Some in H as (m5 & c5 & H & -> & ->).
  rewrite <- (app_nil_r (literal _)), match_here_exact in H.
  destruct (is_prefix (lit "**") t4) eqn:Hp; [|discriminate].
  apply prepend_Some in H as (m6 & c6 & H & -> & ->).
  injection H as <- _ _.
  apply is_prefix_drop in Hp. set (t5 := drop _ t4) in *. clearbody t5.
  subst t4.
  intros h' z E Hz Hh. apply is_header_shape in Hh
    as (ds' & body' & -> & Hne & Hds' & Hbody').
  rewrite <- !app_assoc in E. apply app_inv_head in E.
  change ((x :: ds) ++ 58%N :: (xs ++ lit "**" ++ [])
          = ds' ++ 58%N :: ((body' ++ lit "**") ++ z)) in E.
  apply (run_then_stop is_decimal) in E as [<- E];
    [|cbn [forallb]; rewrite Hx; exact Hds|exact Hds'|reflexivity].
  rewrite app_nil_r, <- app_assoc in E.
  assert (Hlen : length body' < length xs).
  { apply (f_equal length) in E. rewrite !length_app in E. simpl in E.
    destruct z; [congruence|]. simpl in E. lia. }
  assert (Hsplit : xs = body' ++ drop (length body') xs).
  { rewrite <- (take_drop (length body') xs) at 1. f_equal.
    apply (f_equal (take (length body'))) in E.
    rewrite take_app_le in E by lia. rewrite take_app_length in E. exact E. }
  set (zs := drop (length body') xs) in *.
  assert (Hzs : zs <> []).
  { intros Hnil. rewrite Hnil, app_nil_r in Hsplit.
    rewrite Hsplit in Hlen. lia. }
  specialize (Hmin body' zs Hsplit Hzs).
  rewrite Hsplit, <- app_assoc in E. apply app_inv_head in E.
  rewrite <- (app_nil_r (literal _)), match_here_exact in Hmin.
  assert (Hpre : is_prefix (lit "**") (zs ++ lit "**" ++ t5) = true).
  { apply is_prefix_spec. exists (z ++ t5).
    rewrite app_assoc, E, <- !app_assoc. reflexivity. }
  rewrite Hpre in Hmin. discriminate.
Qed.

(** ** The scan and the layout of the headers agree *)

Lemma is_header_nonempty h : is_header h -> h <> [].
Proof.
  intros H. apply is_header_shape in H as (ds & body & -> & _). discriminate.
Qed.

Lemma header_miss t :
  ~ header_starts t ->
  forall x m g r, match_here header_re t <> Some (x :: m, g, r).
Proof.
  intros Hno x m g r Hm. apply match_here_sound in Hm as [Hl ->].
  apply Hno. exists (x :: m), r. auto.
Qed.

Lemma header_hit h r :
  is_header h ->
  (forall h' z, h = h' ++ z -> z <> [] -> ~ is_header h') ->
  exists g, match_here header_re (h ++ r) = Some (h, g, r).
Proof.
  intros Hh Hmin.
  destruct (match_here_complete _ _ Hh r) as [[[m g] r'] Hm].
  exists g. rewrite Hm.
  pose proof (header_match_shortest _ _ _ _ Hm) as Hmin'.
  apply match_here_sound in Hm as [Hl E].
  apply app_eq_app in E as [z [[-> ->] | [-> ->]]].
  - destruct z as [|c z]; [rewrite app_nil_r; reflexivity|].
    destruct (Hmin m (c :: z) eq_refl); [discriminate|exact Hl].
  - destruct z as [|c z]; [rewrite app_nil_r; reflexivity|].
    destruct (Hmin' h (c :: z) eq_refl); [discriminate|exact Hh].
Qed.

Lemma layout_scan s fs hs :
  header_layout s fs hs ->
  re_split header_re s = fs /\ re_findall header_re s = hs.
Proof.
  unfold re_split, re_findall.
  induction 1 as [s Hno|f h r fs hs Hh Hmin Hno _ [IHs IHf]].
  - induction s as [|y s IH].
    + rewrite split_nil, findall_nil. auto.
    + assert (Hy : ~ header_starts (y :: s)) by (apply (Hno []); reflexivity).
      rewrite split_miss, findall_miss by (apply header_miss, Hy).
      destruct IH as [-> ->]; [|auto].
      intros pre t ->. apply (Hno (y :: pre)). reflexivity.
  - induction f as [|y f IH].
    + destruct (header_hit h r Hh Hmin) as [g Hm].
      destruct h as [|x m]; [destruct (is_header_nonempty _ Hh eq_refl)|].
      change ([] ++ (x :: m) ++ r) with ((x :: m) ++ r).
      rewrite (split_hit _ _ _ _ _ _ Hm), (findall_hit _ _ _ _ _ _ Hm).
      cbn [map fst]. rewrite IHs, IHf. auto.
    + assert (Hy : ~ header_starts ((y :: f) ++ h ++ r))
        by (apply (Hno []); [reflexivity|discriminate]).
      change ((y :: f) ++ h ++ r) with (y :: f ++ h ++ r) in Hy |- *.
      rewrite (split_miss _ y (f ++ h ++ r)),
              (findall_miss _ y (f ++ h ++ r)) by (apply header_miss, Hy).
      destruct IH as [-> ->]; [|auto].
      intros pre t ->. apply (Hno (y :: pre)). reflexivity.
Qed.

Lemma layout_push y s fs hs :
  ~ header_starts (y :: s) ->
  header_layout s fs hs -> header_layout (y :: s) (push y fs) hs.
Proof.
  intros Hy H. destruct H as [s Hno|f h r fs hs Hh Hmin Hno H]; simpl.
  - apply layout_end. intros [|c pre] t E; simpl in E.
    + subst t. exact Hy.
    + injection E as _ ->. eapply Hno. reflexivity.
  - apply (layout_header (y :: f)); auto.
    intros [|c pre] t E Ht; simpl in E.
    + subst t. exact Hy.
    + injection E as _ ->. eapply Hno; eauto.
Qed.

Lemma layout_fuel : forall fuel s,
  length s < fuel ->
  header_layout s (split_fuel fuel header_re s)
                  (map fst (findall_fuel fuel header_re s)).
Proof.
  induction fuel as [|fuel IH]; intros s Hs; [lia|].
  rewrite split_fuel_S, findall_fuel_S.
  assert (Hmiss : match_here header_re s = None ->
            header_layout s
              match s with
              | [] => [[]]
              | x :: s' => push x (split_fuel fuel header_re s')
              end
              (map fst match s with
                       | [] => []
                       | _ :: s' => findall_fuel fuel header_re s'
                       end)).
  { intros Hm.
    assert (Hno : ~ header_starts s).
    { intros (h & r & -> & Hh).
      destruct (match_here_complete _ _ Hh r) as [x Hx]. congruence. }
    destruct s as [|y s].
    - apply layout_end. intros [|c pre] t E; [|discriminate].
      simpl in E. subst t. exact Hno.
    - apply layout_push; [exact Hno|]. apply IH. simpl in Hs. lia. }
  destruct (match_here header_re s) as [[[[|x m] g] r]|] eqn:Hm;
    [| |apply Hmiss; reflexivity].
  - apply match_here_sound in Hm as [Hl _].
    destruct (is_header_nonempty _ Hl eq_refl).
  - pose proof (header_match_shortest _ _ _ _ Hm) as Hmin.
    pose proof (match_here_shorter _ _ _ _ _ _ Hm) as Hlen.
    apply match_here_sound in Hm as [Hl ->].
    apply (layout_header [] (x :: m) r); auto.
    + intros [|c pre] t E; [|discriminate]. simpl in E. congruence.
    + apply IH. lia.
Qed.

(** Every text has a layout: the one [re.split] and [re.findall] compute. *)
Lemma header_layout_total s :
  header_layout s (re_split header_re s) (re_findall header_re s).
Proof. apply layout_fuel. lia. Qed.

Lemma imap_fragments (fs hs : list str) :
  length fs = S (length hs) ->
  imap (fun i _ =>
          parse_fragment i
            (if i + 1 <? length fs then nth (i + 1) fs [] else [])) hs
  = imap parse_fragment (tail fs).
Proof.
  intros Hlen. destruct fs as [|f0 fs]; [discriminate|].
  simpl in Hlen. injection Hlen as Hlen. cbn [tail].
  apply list_eq. intros i. rewrite !list_lookup_imap.
  destruct (hs !! i) as [h|] eqn:Hh.
  - apply lookup_lt_Some in Hh.
    destruct (fs !! i) as [c|] eqn:Hc;
      [|apply lookup_ge_None in Hc; lia].
    simpl. do 2 f_equal.
    replace (i + 1 <? S (length fs)) with true
      by (symmetry; apply Nat.ltb_lt; lia).
    replace (i + 1) with (S i) by lia. simpl.
    rewrite nth_lookup, Hc. reflexivity.
  - apply lookup_ge_None in Hh.
    rewrite (proj2 (lookup_ge_None fs i)) by lia. reflexivity.
Qed.

(** ** The title and the bullet patterns

    Both end in a greedy group that can always match, so nothing is ever
    given back: each loop takes the longest run there is. *)

Lemma greedy_last a s :
  greedy a (match_here []) s
  = Some (take_while (cls a) s,
          (if grp a then take_while (cls a) s else []),
          drop_while (cls a) s).
Proof.
  rewrite greedy_total by (intros t; simpl; eauto).
  simpl. rewrite !app_nil_r. reflexivity.
Qed.

Lemma match_space_line t :
  match_here [Atom is_space Star false; Atom is_dot Star true] t
  = Some (space_then_line t).
Proof.
  change (greedy (Atom is_space Star false)
            (greedy (Atom is_dot Star true) (match_here [])) t
          = Some (space_then_line t)).
  rewrite greedy_total by (intros u; rewrite greedy_last; eauto).
  rewrite greedy_last. reflexivity.
Qed.

Lemma match_title s :
  match_here title_re s
  = if is_prefix (lit "**Title:**") s
    then prepend false (lit "**Title:**")
           (Some (space_then_line (drop 10 s)))
    else None.
Proof.
  unfold title_re, exactly. rewrite match_here_exact, match_space_line.
  reflexivity.
Qed.

Lemma match_bullet s :
  match_here bullet_re s
  = match s with
    | x :: w :: t =>
        if (x =? 42)%N && is_space w
        then prepend false [x; w] (Some (space_then_line t))
        else None
    | _ => None
    end.
Proof.
  unfold bullet_re, exactly. rewrite match_here_exact.
  destruct s as [|x s]; [reflexivity|].
  change (is_prefix (lit "*") (x :: s)) with ((x =? 42)%N && true).
  rewrite andb_true_r. destruct (x =? 42)%N eqn:Hx; [|destruct s; reflexivity].
  apply N.eqb_eq in Hx as ->.
  change (drop (length (lit "*")) (42%N :: s)) with s.
  change (match_here ([Atom is_space Plus false; Atom is_dot Star true]) s)
    with (at_least_one (Atom is_space Plus false)
            (greedy (Atom is_dot Star true) (match_here [])) s).
  destruct s as [|w t]; [reflexivity|]. cbn [at_least_one cls grp andb].
  destruct (is_space w); [|reflexivity].
  rewrite greedy_total by (intros u; rewrite greedy_last; eauto).
  rewrite greedy_last. reflexivity.
Qed.

(** The line captured after a run of whitespace is empty only at the end
    of the text, and otherwise starts with a character that is no
    whitespace. *)
Lemma space_then_line_group t m g r :
  space_then_line t = (m, g, r) ->
  exists ws, t = ws ++ g ++ r /\ m = ws ++ g /\ forallb is_space ws = true
    /\ forallb is_dot g = true
    /\ match g with
       | [] => r = []
       | x :: _ => is_space x = false
       end.
Proof.
  unfold space_then_line. intros [= <- <- <-].
  exists (take_while is_space t).
  rewrite !take_drop_while, take_while_all, take_while_all.
  repeat split; auto.
  destruct (drop_while is_space t) as [|x u] eqn:Hu; simpl; [reflexivity|].
  pose proof (drop_while_head _ _ _ _ Hu) as Hx.
  destruct (is_dot x) eqn:Hd; [exact Hx|].
  unfold is_dot in Hd. apply negb_false_iff, N.eqb_eq in Hd as ->.
  vm_compute in Hx. discriminate.
Qed.

(** ** [re.search] *)

Lemma re_search_Some p s res :
  re_search p s = Some res ->
  exists pre t, s = pre ++ t /\ match_here p t = Some res.
Proof.
  induction s as [|x s IH]; simpl.
  - destruct (match_here p []) eqn:E; [|discriminate].
    intros [= ->]. exists [], []. auto.
  - destruct (match_here p (x :: s)) eqn:E.
    + intros [= ->]. exists [], (x :: s). auto.
    + intros H. destruct (IH H) as (pre & t & -> & Ht).
      exists (x :: pre), t. auto.
Qed.

Lemma re_search_None p s :
  re_search p s = None -> forall pre t, s = pre ++ t -> match_here p t = None.
Proof.
  induction s as [|x s IH]; simpl.
  - destruct (match_here p []) eqn:E; [discriminate|].
    intros _ [|] [|] H; try discriminate. exact E.
  - destruct (match_here p (x :: s)) eqn:E; [discriminate|].
    intros H [|y pre] t Ht; simpl in Ht.
    + subst t. exact E.
    + injection Ht as _ ->. eapply IH; eauto.
Qed.

Lemma title_search_label content :
  occurs (lit "**Title:**") content = false ->
  re_search title_re content = None.
Proof.
  intros Hno. destruct (re_search title_re content) as [res|] eqn:E;
    [|reflexivity].
  apply re_search_Some in E as (pre & t & -> & Ht).
  rewrite match_title in Ht.
  destruct (is_prefix _ t) eqn:Hp; [|discriminate].
  apply is_prefix_spec in Hp as [u ->].
  assert (occurs (lit "**Title:**") (pre ++ lit "**Title:**" ++ u) = true)
    by (apply occurs_spec; eauto).
  congruence.
Qed.

Lemma title_search_found content m g r :
  re_search title_re content = Some (m, g, r) ->
  exists pre ws,
    content = pre ++ lit "**Title:**" ++ ws ++ g ++ r
    /\ forallb is_space ws = true
    /\ match g with
       | [] => r = []
       | x :: _ => is_space x = false
       end.
Proof.
  intros E. apply re_search_Some in E as (pre & t & -> & Ht).
  rewrite match_title in Ht.
  destruct (is_prefix _ t) eqn:Hp; [|discriminate].
  apply is_prefix_drop in Hp.
  change (length (lit "**Title:**")) with 10 in Hp.
  destruct (space_then_line (drop 10 t)) as [[m1 g1] r1] eqn:Hs.
  simpl in Ht. injection Ht as <- <- <-.
  apply space_then_line_group in Hs as (ws & Hd & _ & Hws & _ & Hg).
  exists pre, ws. rewrite <- Hd, <- Hp. auto.
Qed.

(** ** [str.strip] *)

Lemma drop_while_nil_all f s : drop_while f s = [] -> forallb f s = true.
Proof.
  induction s as [|x s IH]; simpl; [reflexivity|].
  destruct (f x); [exact IH|discriminate].
Qed.

Lemma strip_with_nil f x s : f x = false -> strip_with f (x :: s) <> [].
Proof.
  unfold strip_with. intros Hx H. simpl in H. rewrite Hx in H.
  apply (f_equal (@rev N)) in H. rewrite rev_involutive in H. simpl in H.
  apply drop_while_nil_all in H. rewrite forallb_app in H. simpl in H.
  rewrite Hx in H. rewrite andb_false_r in H. discriminate.
Qed.

Lemma drop_while_suffix f s :
  exists pre, s = pre ++ drop_while f s /\ forallb f pre = true.
Proof.
  exists (take_while f s). rewrite take_drop_while, take_while_all. auto.
Qed.

(** Stripping removes a run of the given characters at either end and
    nothing else. *)
Lemma strip_with_parts f s :
  exists pre post,
    s = pre ++ strip_with f s ++ post
    /\ forallb f pre = true /\ forallb f post = true.
Proof.
  unfold strip_with.
  destruct (drop_while_suffix f s) as (pre & Hs & Hpre).
  destruct (drop_while_suffix f (rev (drop_while f s))) as (q & Hq & Hqf).
  exists pre, (rev q). repeat split; auto.
  - rewrite Hs at 1. f_equal.
    rewrite <- rev_app_distr, <- Hq, rev_involutive. reflexivity.
  - rewrite forallb_forall in *. intros x Hx. apply Hqf.
    apply in_rev. exact Hx.
Qed.

Lemma drop_while_snoc f l x :
  f x = false -> drop_while f (l ++ [x]) = drop_while f l ++ [x].
Proof.
  intros Hx. induction l as [|y l IH]; simpl; [rewrite Hx; reflexivity|].
  destruct (f y); [exact IH|reflexivity].
Qed.

(** What is left after stripping neither starts nor ends with a stripped
    character. *)
Lemma strip_with_ends f s :
  head_is f (strip_with f s) = false
  /\ head_is f (rev (strip_with f s)) = false.
Proof.
  unfold strip_with. rewrite rev_involutive. split.
  - destruct (drop_while f s) as [|x u] eqn:Hu; [reflexivity|].
    pose proof (drop_while_head _ _ _ _ Hu) as Hx.
    simpl rev. rewrite drop_while_snoc by exact Hx.
    rewrite rev_app_distr. simpl. exact Hx.
  - destruct (drop_while f (rev (drop_while f s))) as [|x u] eqn:Hu;
      [reflexivity|].
    simpl. exact (drop_while_head _ _ _ _ Hu).
Qed.

(** ** Bullets *)

Lemma in_order_skip y bs s : in_order bs s -> in_order bs (y :: s).
Proof.
  intros H. destruct H as [s|b bs pre post H]; [constructor|].
  apply (in_order_cons b bs (y :: pre) post H).
Qed.

Lemma bullets_in_order_fuel : forall fuel s,
  in_order (map snd (findall_fuel fuel bullet_re s)) s.
Proof.
  induction fuel as [|fuel IH]; intros s; [constructor|].
  rewrite findall_fuel_S.
  assert (Hmiss : in_order
            (map snd match s with
                     | [] => []
                     | _ :: s' => findall_fuel fuel bullet_re s'
                     end) s).
  { destruct s as [|y s]; [constructor|]. apply in_order_skip, IH. }
  destruct (match_here bullet_re s) as [[[[|x m] g] r]|] eqn:Hm;
    try exact Hmiss.
  rewrite match_bullet in Hm.
  destruct s as [|x' [|w t]]; try discriminate.
  destruct ((x' =? 42)%N && is_space w); [|discriminate].
  destruct (space_then_line t) as [[m1 g1] r1] eqn:Hs.
  simpl in Hm. injection Hm as <- <- <- <-.
  apply space_then_line_group in Hs as (ws & -> & _ & _).
  simpl. apply (in_order_cons g1 _ (x' :: w :: ws) r1). apply IH.
Qed.

Lemma bullet_skip pre s :
  forallb (fun c => negb (c =? 42)%N) pre = true ->
  findall_fuel (S (length (pre ++ s))) bullet_re (pre ++ s)
  = findall_fuel (S (length s)) bullet_re s.
Proof.
  intros Hpre. induction pre as [|c pre IH]; [reflexivity|].
  simpl in Hpre. apply andb_prop in Hpre as [Hc Hpre].
  change ((c :: pre) ++ s) with (c :: pre ++ s).
  rewrite findall_miss; [exact (IH Hpre)|].
  intros x m g r. rewrite match_bullet.
  apply negb_true_iff in Hc. rewrite Hc. destruct (pre ++ s); discriminate.
Qed.





(** ** The extractor *)

Lemma extract_success_iff f text :
  extract_text_from_pdf f = (Some text, None)
  <-> text = gathered_text f /\ MIN_CONTENT_LENGTH < length text.
Proof.
  unfold extract_text_from_pdf.
  destruct (MIN_CONTENT_LENGTH <? length (gathered_text f)) eqn:E.
  - apply Nat.ltb_lt in E. split.
    + intros [= <-]. auto.
    + intros [-> _]. reflexivity.
  - apply Nat.ltb_ge in E. split; [discriminate|]. intros [-> H]. lia.
Qed.

Lemma extract_nothing f :
  gathered_text f = [] ->
  extract_text_from_pdf f = (None, Some insufficient_text).
Proof. unfold extract_text_from_pdf. intros ->. reflexivity. Qed.

Lemma read_pages_blank i pages text :
  Forall (fun pg => pg = PageText None \/ pg = PageText (Some [])
                    \/ pg = PageRaises) pages ->
  read_pages i pages text = text.
Proof.
  intros H. revert i. induction H as [|pg pages Hpg _ IH]; intros i;
    [reflexivity|].
  destruct Hpg as [-> | [-> | ->]]; simpl; try reflexivity;
    rewrite IH; destruct (PROCESSING_CHUNK_SIZE <? length text); reflexivity.
Qed.

(** When neither library yields any text the document is reported as
    insufficient. *)
Lemma extract_blank_document l1 l2 :
  Forall (fun pg => pg = PageText None \/ pg = PageText (Some [])
                    \/ pg = PageRaises) l1 ->
  Forall (fun pg => pg = PageText None \/ pg = PageText (Some [])
                    \/ pg = PageRaises) l2 ->
  extract_text_from_pdf (PdfFile (Pages l1) (Pages l2))
  = (None, Some insufficient_text).
Proof.
  intros H1 H2. apply extract_nothing. unfold gathered_text. cbn [read_library
    pdfplumber_view pypdf2_view].
  rewrite (read_pages_blank 0 l1 [] H1). cbn [length].
  change (0 <? MIN_CONTENT_LENGTH) with true. cbn iota.
  apply read_pages_blank, H2.
Qed.

(** The two patterns that are scanned for never match an empty text, as
    the scans assume. *)
Lemma scanned_patterns_nonempty s m g r :
  match_here header_re s = Some (m, g, r)
  \/ match_here bullet_re s = Some (m, g, r) ->
  m <> [].
Proof.
  intros [H | H].
  - apply match_here_sound in H as [H _]. apply is_header_nonempty, H.
  - rewrite match_bullet in H. destruct s as [|x [|w t]]; try discriminate.
    destruct ((x =? 42)%N && is_space w); [|discriminate].
    destruct (space_then_line t) as [[m1 g1] r1].
    simpl in H. injection H as <- _ _. discriminate.
Qed.

(** * The claims *)

(** C1. A text laid out around exactly K headers (counted as [re] finds
    them, left to right and without overlap) is parsed into exactly K
    records, one per header and in header order: the i-th record is the one
    read from the fragment that follows the i-th header.  The empty text
    gives the empty list. *)
Theorem parse_one_record_per_header s fs hs :
  header_layout s fs hs ->
  length (parse_gemini_structure s) = length hs
  /\ parse_gemini_structure s = imap parse_fragment (tail fs)
  /\ parse_gemini_structure [] = [].
Proof.
  intros H. apply layout_scan in H as [Hs Hf].
  assert (E : parse_gemini_structure s = imap parse_fragment (tail fs)).
  { unfold parse_gemini_structure. rewrite <- Hs.
    apply imap_fragments, re_split_length. }
  split; [|split; [exact E|reflexivity]].
  unfold parse_gemini_structure. rewrite length_imap, Hf. reflexivity.
Qed.

Lemma parse_one_record_per_header_witness :
  header_layout (lit "intro **Slide 1: A** x **Slide 2: B** y")
    [lit "intro "; lit " x "; lit " y"]
    [lit "**Slide 1: A**"; lit "**Slide 2: B**"]
  /\ length (parse_gemini_structure
               (lit "intro **Slide 1: A** x **Slide 2: B** y")) = 2.
Proof.
  assert (H : header_layout (lit "intro **Slide 1: A** x **Slide 2: B** y")
                [lit "intro "; lit " x "; lit " y"]
                [lit "**Slide 1: A**"; lit "**Slide 2: B**"])
    by exact (header_layout_total
                (lit "intro **Slide 1: A** x **Slide 2: B** y")).
  split; [exact H|].
  exact (proj1 (parse_one_record_per_header _ _ _ H)).
Defined.

(** C5. The record of a fragment that contains no [**Title:**] label has
    the title [Slide {i+2}], where [i] is the index of the fragment's
    header, counted from 0 (so [Slide 2] for the first header). *)
Theorem missing_title_placeholder s fs hs i content :
  header_layout s fs hs ->
  fs !! S i = Some content ->
  occurs (lit "**Title:**") content = false ->
  fst <$> parse_gemini_structure s !! i
  = Some (lit "Slide " ++ str_of_nat (i + 2)).
Proof.
  intros H Hc Hno.
  destruct (parse_one_record_per_header _ _ _ H) as (_ & -> & _).
  rewrite list_lookup_imap, lookup_tail, Hc. simpl.
  unfold parse_fragment. rewrite (title_search_label _ Hno). reflexivity.
Qed.

Lemma missing_title_placeholder_witness :
  header_layout (lit "**Slide 7: Plan** no label here")
    [[]; lit " no label here"] [lit "**Slide 7: Plan**"]
  /\ [[]; lit " no label here"] !! 1 = Some (lit " no label here")
  /\ occurs (lit "**Title:**") (lit " no label here") = false
  /\ fst <$> parse_gemini_structure (lit "**Slide 7: Plan** no label here")
             !! 0
     = Some (lit "Slide 2").
Proof.
  assert (H : header_layout (lit "**Slide 7: Plan** no label here")
                [[]; lit " no label here"] [lit "**Slide 7: Plan**"])
    by exact (header_layout_total (lit "**Slide 7: Plan** no label here")).
  split; [exact H|]. split; [reflexivity|]. split; [reflexivity|].
  exact (missing_title_placeholder _ _ _ 0 _ H eq_refl eq_refl).
Defined.

(** C6, as stated, fails: a [**Title:**] label with nothing after it gives
    a record with the empty title. *)
Lemma empty_title_emitted :
  parse_gemini_structure (lit "**Slide 2: x**" ++ [10%N] ++ lit "**Title:**")
  = [([], [])].
Proof. vm_compute. reflexivity. Qed.

(** C6, amended. A record has an empty title only if its fragment holds a
    [**Title:**] label followed by nothing but whitespace up to the end of
    the fragment; in particular the placeholder of a fragment without label
    is never empty. *)
Theorem empty_title_only_after_blank_label s fs hs i r :
  header_layout s fs hs ->
  parse_gemini_structure s !! i = Some r ->
  fst r <> []
  \/ exists content pre ws,
       fs !! S i = Some content
       /\ content = pre ++ lit "**Title:**" ++ ws
       /\ forallb is_space ws = true.
Proof.
  intros H Hr.
  destruct (parse_one_record_per_header _ _ _ H) as (_ & E & _).
  rewrite E, list_lookup_imap, lookup_tail in Hr.
  destruct (fs !! S i) as [content|] eqn:Hc; [|discriminate].
  simpl in Hr. injection Hr as <-. unfold parse_fragment. cbn [fst].
  destruct (re_search title_re content) as [[[m g] t]|] eqn:Hs.
  - apply title_search_found in Hs as (pre & ws & -> & Hws & Hg).
    destruct g as [|x g].
    + right. subst t. cbn [app] in Hc. rewrite app_nil_r in Hc.
      exists (pre ++ lit "**Title:**" ++ ws), pre, ws.
      cbn [app]. rewrite app_nil_r. auto.
    + left. apply strip_with_nil. exact Hg.
  - left. change (lit "Slide ") with (83%N :: lit "lide "). discriminate.
Qed.

Lemma empty_title_only_after_blank_label_witness :
  header_layout (lit "**Slide 2: x** **Title:** ")
    [[]; lit " **Title:** "] [lit "**Slide 2: x**"]
  /\ parse_gemini_structure (lit "**Slide 2: x** **Title:** ") !! 0
     = Some ([], [[]])
  /\ (fst (@nil N, [@nil N]) <> []
      \/ exists content pre ws,
           [[]; lit " **Title:** "] !! 1 = Some content
           /\ content = pre ++ lit "**Title:**" ++ ws
           /\ forallb is_space ws = true).
Proof.
  assert (H : header_layout (lit "**Slide 2: x** **Title:** ")
                [[]; lit " **Title:** "] [lit "**Slide 2: x**"])
    by exact (header_layout_total (lit "**Slide 2: x** **Title:** ")).
  split; [exact H|]. split; [vm_compute; reflexivity|].
  apply (empty_title_only_after_blank_label _ _ _ 0 _ H).
  vm_compute. reflexivity.
Defined.

Lemma forallb_strip_with (P f : N -> bool) s :
  forallb P s = true -> forallb P (strip_with f s) = true.
Proof.
  intros H. destruct (strip_with_parts f s) as (pre & post & E & _).
  rewrite E, !forallb_app in H.
  apply andb_prop in H as [_ H]. apply andb_prop in H as [H _]. exact H.
Qed.

Lemma strip_with_id f s :
  head_is f s = false -> head_is f (rev s) = false -> strip_with f s = s.
Proof.
  intros H1 H2. unfold strip_with.
  assert (E : forall t, head_is f t = false -> drop_while f t = t).
  { intros [|x t] H; [reflexivity|]. simpl in *. rewrite H. reflexivity. }
  rewrite (E s H1), (E (rev s) H2). apply rev_involutive.
Qed.

Lemma plain_head s :
  forallb plain_space s = true -> head_is is_glyph s = false ->
  head_is is_space s = false.
Proof.
  destruct s as [|x s]; [reflexivity|]. cbn [forallb head_is].
  intros H Hg. apply andb_prop in H as [H _]. unfold plain_space in H.
  destruct (is_space x); [|reflexivity]. cbn [negb orb] in H.
  apply N.eqb_eq in H as ->. vm_compute in Hg. discriminate.
Qed.

Lemma plain_bullet_trim b :
  forallb plain_space b = true ->
  trim_bullet b = strip_chars bullet_glyphs b
  /\ head_is is_glyph (trim_bullet b) = false
  /\ head_is is_glyph (rev (trim_bullet b)) = false.
Proof.
  intros Hb. destruct (strip_with_ends is_glyph b) as [H1 H2].
  assert (Hs : forallb plain_space (strip_chars bullet_glyphs b) = true)
    by (apply forallb_strip_with, Hb).
  assert (Hr : forallb plain_space (rev (strip_chars bullet_glyphs b)) = true).
  { rewrite forallb_forall in *. intros x Hx. apply Hs, in_rev, Hx. }
  assert (E : trim_bullet b = strip_chars bullet_glyphs b).
  { unfold trim_bullet, strip. apply strip_with_id; apply plain_head; auto. }
  rewrite E. auto.
Qed.

(** C7, as stated, fails for the rendered text: after a tab the second
    dash of the line [* -<tab>- x] is out of reach of both strips and the
    bullet is rendered as [- x]. *)
Lemma glyph_left_after_tab :
  map p_text
    (slide_body
       (re_findall_group bullet_re (lit "* -" ++ [9%N] ++ lit "- x")))
  = [lit "- x"]
  /\ head_is is_glyph (lit "- x") = true.
Proof. vm_compute. split; reflexivity. Qed.

(** C7, amended. The bullets of a fragment are found in the order in
    which they stand in the fragment, and a content slide renders them in
    that order, one paragraph per bullet.  A rendered bullet is the bullet
    without a run of the glyphs [-], [•], [*] and space at either end and
    then without whitespace at either end: it never has whitespace at an
    end, and it has no glyph at an end either when the bullet holds no
    whitespace other than the space.  The line [* - Revenue grew 10%] is
    rendered as [Revenue grew 10%]. *)
Theorem bullets_keep_order_and_are_trimmed :
  (forall content, in_order (re_findall_group bullet_re content) content)
  /\ (forall title b bs,
        content_slide (title, b :: bs)
        = ContentSlide title (map bullet_paragraph (b :: bs)))
  /\ (forall b, p_text (bullet_paragraph b) = trim_bullet b)
  /\ (forall b, exists g1 w1 w2 g2,
        b = g1 ++ (w1 ++ trim_bullet b ++ w2) ++ g2
        /\ forallb is_glyph g1 = true /\ forallb is_space w1 = true
        /\ forallb is_space w2 = true /\ forallb is_glyph g2 = true)
  /\ (forall b,
        head_is is_glyph (strip_chars bullet_glyphs b) = false
        /\ head_is is_glyph (rev (strip_chars bullet_glyphs b)) = false
        /\ head_is is_space (trim_bullet b) = false
        /\ head_is is_space (rev (trim_bullet b)) = false)
  /\ (forall b,
        forallb plain_space b = true ->
        trim_bullet b = strip_chars bullet_glyphs b
        /\ head_is is_glyph (trim_bullet b) = false
        /\ head_is is_glyph (rev (trim_bullet b)) = false)
  /\ map p_text
       (slide_body (re_findall_group bullet_re (lit "* - Revenue grew 10%")))
     = [lit "Revenue grew 10%"]
  /\ trim_bullet (8226%N :: lit " Costs * fell - ") = lit "Costs * fell".
Proof.
  split; [intros content; apply bullets_in_order_fuel|].
  split; [reflexivity|]. split; [reflexivity|].
  split; [|split; [|split; [exact plain_bullet_trim|
                            split; vm_compute; reflexivity]]].
  - intros b. unfold trim_bullet, strip.
    destruct (strip_with_parts is_glyph b) as (g1 & g2 & Hb & Hg1 & Hg2).
    destruct (strip_with_parts is_space (strip_chars bullet_glyphs b))
      as (w1 & w2 & Hw & Hw1 & Hw2).
    exists g1, w1, w2, g2. rewrite <- Hw. auto.
  - intros b.
    destruct (strip_with_ends is_glyph b) as [H1 H2].
    destruct (strip_with_ends is_space (strip_chars bullet_glyphs b))
      as [H3 H4].
    auto.
Qed.

Lemma bullets_keep_order_and_are_trimmed_witness :
  forallb plain_space (lit "- Revenue grew 10% *") = true
  /\ trim_bullet (lit "- Revenue grew 10% *") = lit "Revenue grew 10%"
  /\ head_is is_glyph (trim_bullet (lit "- Revenue grew 10% *")) = false
  /\ head_is is_glyph (rev (trim_bullet (lit "- Revenue grew 10% *")))
     = false.
Proof.
  assert (H : forallb plain_space (lit "- Revenue grew 10% *") = true)
    by (vm_compute; reflexivity).
  split; [exact H|]. split; [vm_compute; reflexivity|].
  exact (proj2 (proj1 (proj2 (proj2 (proj2 (proj2 (proj2
           bullets_keep_order_and_are_trimmed)))))
           (lit "- Revenue grew 10% *") H)).
Defined.




(** C3. When the parser finds no record, the deck has exactly two slides:
    the title slide and the fallback slide [Introduction] with the single
    bullet [Key points missing from AI output]. *)
Theorem empty_outline_fallback_deck ppt_title slide_structure now :
  parse_gemini_structure slide_structure = [] ->
  presentation_slides ppt_title slide_structure now
  = [TitleSlide ppt_title (lit "Generated on " ++ strftime_d_B_Y now);
     ContentSlide (lit "Introduction")
       [Para (lit "Key points missing from AI output")
             (Some 18) (Some PPT_FONT) (Some (0, 0, 0)) (Some LEFT)]]
  /\ length (presentation_slides ppt_title slide_structure now) = 2.
Proof.
  intros H. unfold presentation_slides. rewrite H. split; reflexivity.
Qed.

Lemma empty_outline_fallback_deck_witness :
  parse_gemini_structure (lit "no header in this reply") = []
  /\ length (presentation_slides (lit "Business Report")
               (lit "no header in this reply") (Date 2026 November 3)) = 2.
Proof.
  split; [vm_compute; reflexivity|].
  apply (empty_outline_fallback_deck (lit "Business Report")
           (lit "no header in this reply") (Date 2026 November 3)).
  vm_compute. reflexivity.
Defined.

(** C4. With 15 records the deck has 11 slides: the title slide and the
    content slides of the first 10 records, in order; the last 5 records
    are dropped.  Whatever the text, at most [MAX_SLIDES] content slides
    follow the title slide, made from the front of the list of records. *)
Theorem cap_at_max_slides ppt_title slide_structure now :
  length (parse_gemini_structure slide_structure) = 15 ->
  length (presentation_slides ppt_title slide_structure now) = 11
  /\ tail (presentation_slides ppt_title slide_structure now)
     = map content_slide (take 10 (parse_gemini_structure slide_structure))
  /\ length (drop 10 (parse_gemini_structure slide_structure)) = 5
  /\ (forall t s d,
        length (tail (presentation_slides t s d)) <= MAX_SLIDES
        /\ (parse_gemini_structure s = []
            \/ tail (presentation_slides t s d)
               = map content_slide
                   (take MAX_SLIDES (parse_gemini_structure s)))).
Proof.
  intros H. unfold presentation_slides.
  destruct (parse_gemini_structure slide_structure) as [|r l] eqn:E;
    [discriminate|].
  cbn [length tail]. rewrite length_map, length_take, length_drop, H.
  split; [reflexivity|]. split; [reflexivity|]. split; [reflexivity|].
  intros t s d. rewrite length_map, length_take. split; [lia|].
  destruct (parse_gemini_structure s); [left|right]; reflexivity.
Qed.

Lemma cap_at_max_slides_witness :
  length (parse_gemini_structure
            (concat (repeat (lit "**Slide 3: Topic** * point ") 15))) = 15
  /\ length (presentation_slides (lit "Report")
               (concat (repeat (lit "**Slide 3: Topic** * point ") 15))
               (Date 2026 November 3)) = 11.
Proof.
  split; [vm_compute; reflexivity|].
  apply (cap_at_max_slides (lit "Report")
           (concat (repeat (lit "**Slide 3: Topic** * point ") 15))
           (Date 2026 November 3)).
  vm_compute. reflexivity.
Defined.

(** C10, as stated, fails: the subtitle of the title slide is the date of
    the call, so the same title and outline give different text on two
    days. *)
Lemma decks_differ_across_days :
  presentation_slides (lit "Report") [] (Date 2026 November 3)
  <> presentation_slides (lit "Report") [] (Date 2026 November 4).
Proof. vm_compute. discriminate. Qed.

(** [strftime('%d %B %Y')] tells the days apart. *)

Lemma digit_chars d :
  Forall (fun c => is_space c = false /\ is_dot c = true)
         (digits_of_uint d).
Proof.
  induction d; simpl; constructor; try assumption; split; reflexivity.
Qed.

Lemma digits_of_uint_inj d1 : forall d2,
  digits_of_uint d1 = digits_of_uint d2 -> d1 = d2.
Proof.
  induction d1 as [|d1 IH|d1 IH|d1 IH|d1 IH|d1 IH|d1 IH|d1 IH|d1 IH|d1 IH
                   |d1 IH];
    intros [|d2|d2|d2|d2|d2|d2|d2|d2|d2|d2]; cbn [digits_of_uint];
    try discriminate; try reflexivity;
    intros [= H]; f_equal; apply IH, H.
Qed.

Lemma str_of_nat_inj n m : str_of_nat n = str_of_nat m -> n = m.
Proof.
  intros H. apply DecimalNat.Unsigned.to_uint_inj, digits_of_uint_inj, H.
Qed.

Lemma to_uint_normal n : Decimal.unorm (Nat.to_uint n) = Nat.to_uint n.
Proof.
  rewrite <- DecimalNat.Unsigned.to_of, DecimalNat.Unsigned.of_to.
  reflexivity.
Qed.

Lemma str_of_nat_leading_zero n l : str_of_nat n = 48%N :: l -> n = 0.
Proof.
  unfold str_of_nat. intros H. pose proof (to_uint_normal n) as Hn.
  destruct (Nat.to_uint n) as [|u|u|u|u|u|u|u|u|u|u] eqn:E;
    cbn [digits_of_uint] in H; try discriminate.
  destruct (Decimal.uint_eq_dec u Nil) as [-> | Hu].
  - apply DecimalNat.Unsigned.to_uint_inj. rewrite E. reflexivity.
  - rewrite DecimalFacts.unorm_D0 in Hn.
    pose proof (DecimalFacts.nb_digits_unorm u Hu) as Hle.
    rewrite Hn in Hle. cbn [Decimal.nb_digits] in Hle. lia.
Qed.

Lemma day_field_inj a b :
  (if a <? 10 then 48%N :: str_of_nat a else str_of_nat a)
  = (if b <? 10 then 48%N :: str_of_nat b else str_of_nat b) ->
  a = b.
Proof.
  destruct (a <? 10) eqn:Ha, (b <? 10) eqn:Hb; intros H.
  - injection H as H. apply str_of_nat_inj, H.
  - symmetry in H. apply str_of_nat_leading_zero in H.
    apply Nat.ltb_ge in Hb. lia.
  - apply str_of_nat_leading_zero in H. apply Nat.ltb_ge in Ha. lia.
  - apply str_of_nat_inj, H.
Qed.

Lemma day_field_no_space a :
  forallb (fun c => negb (is_space c))
    (if a <? 10 then 48%N :: str_of_nat a else str_of_nat a) = true.
Proof.
  assert (H : forallb (fun c => negb (is_space c)) (str_of_nat a) = true).
  { apply forallb_forall. intros c Hc.
    pose proof (digit_chars (Nat.to_uint a)) as Hd.
    rewrite Forall_forall in Hd. apply list_elem_of_In in Hc.
    destruct (Hd c Hc) as [-> _]. reflexivity. }
  destruct (a <? 10); [cbn [forallb]; rewrite H|exact H]; reflexivity.
Qed.

Lemma month_name_no_space m :
  forallb (fun c => negb (is_space c)) (month_name m) = true.
Proof. destruct m; vm_compute; reflexivity. Qed.

Lemma month_name_inj m1 m2 : month_name m1 = month_name m2 -> m1 = m2.
Proof.
  destruct m1, m2; intros H; try reflexivity; vm_compute in H;
    discriminate.
Qed.

Lemma strftime_d_B_Y_inj d1 d2 :
  strftime_d_B_Y d1 = strftime_d_B_Y d2 -> d1 = d2.
Proof.
  destruct d1 as [y1 m1 a1], d2 as [y2 m2 a2].
  unfold strftime_d_B_Y. cbn [year mon day]. intros H.
  change (lit " " ++ ?x) with (32%N :: x) in H.
  apply (run_then_stop (fun c => negb (is_space c))) in H as [Hd H];
    [|apply day_field_no_space|apply day_field_no_space|reflexivity].
  change (lit " " ++ ?x) with (32%N :: x) in H.
  apply (run_then_stop (fun c => negb (is_space c))) in H as [Hm Hy];
    [|apply month_name_no_space|apply month_name_no_space|reflexivity].
  apply day_field_inj in Hd. apply month_name_inj in Hm.
  apply str_of_nat_inj in Hy. subst. reflexivity.
Qed.

(** C10, amended. Two calls with the same title and the same outline text
    give decks with the same number of slides, the same title on the title
    slide and the same content slides; the subtitle of the title slide is
    [Generated on] and the date of the call, so the two decks are the same
    exactly when the two calls happen on the same day. *)
Theorem decks_agree_up_to_date ppt_title slide_structure d1 d2 :
  length (presentation_slides ppt_title slide_structure d1)
  = length (presentation_slides ppt_title slide_structure d2)
  /\ tail (presentation_slides ppt_title slide_structure d1)
     = tail (presentation_slides ppt_title slide_structure d2)
  /\ head (presentation_slides ppt_title slide_structure d1)
     = Some (TitleSlide ppt_title (lit "Generated on " ++ strftime_d_B_Y d1))
  /\ head (presentation_slides ppt_title slide_structure d2)
     = Some (TitleSlide ppt_title (lit "Generated on " ++ strftime_d_B_Y d2))
  /\ (presentation_slides ppt_title slide_structure d1
      = presentation_slides ppt_title slide_structure d2
      <-> d1 = d2).
Proof.
  unfold presentation_slides. do 4 (split; [reflexivity|]). split.
  - intros [= H]. apply strftime_d_B_Y_inj, H.
  - intros ->. reflexivity.
Qed.

(** C2, at the text length where the code departs from it: a text of
    exactly [MIN_CONTENT_LENGTH] characters is not tried with the second
    library and is reported as insufficient. *)
Theorem extract_rejects_text_of_min_length :
  let f := PdfFile (Pages [PageText (Some (repeat 65%N 89))]) OpenRaises in
  length (gathered_text f) = MIN_CONTENT_LENGTH
  /\ extract_text_from_pdf f = (None, Some insufficient_text).
Proof. vm_compute. split; reflexivity. Qed.

(** C9, on the path where it fails: when reading the saved file back
    raises, the temporary file is still there when the operation ends;
    the same holds for the empty file when saving raises. *)
Theorem temp_file_left_behind now ppt_title edited fs u :
  let tmp := fresh (dom fs) in
  let prs := presentation_slides ppt_title edited now in
  fs !! tmp = None
  /\ fst (generate_powerpoint (Faults false true u) now ppt_title edited fs)
     = Raised
  /\ snd (generate_powerpoint (Faults false true u) now ppt_title edited fs)
       !! tmp = Some (Some prs)
  /\ fst (generate_powerpoint (Faults true false u) now ppt_title edited fs)
     = NoArtifact
  /\ snd (generate_powerpoint (Faults true false u) now ppt_title edited fs)
       !! tmp = Some None.
Proof.
  intros tmp prs. split.
  - apply not_elem_of_dom, is_fresh.
  - unfold generate_powerpoint, create_presentation. cbn.
    rewrite !lookup_insert_eq. auto.
Qed.

(** On the path without faults the temporary file is removed and the
    saved deck is what is handed to the download. *)
Lemma temp_file_removed now ppt_title edited fs :
  generate_powerpoint (Faults false false false) now ppt_title edited fs
  = (Downloaded (Some (presentation_slides ppt_title edited now)), fs).
Proof.
  unfold generate_powerpoint, create_presentation. cbn.
  rewrite lookup_insert_eq. cbn. f_equal.
  rewrite delete_insert_eq, delete_insert_eq.
  apply delete_id, not_elem_of_dom, is_fresh.
Qed.

(** * Further properties of the code *)

(** ** The extractor *)

Lemma chunk_above_min : MIN_CONTENT_LENGTH <= PROCESSING_CHUNK_SIZE.
Proof. apply Nat.leb_le. vm_compute. reflexivity. Qed.

Lemma read_pages_cons i t rest text :
  read_pages i (PageText t :: rest) text
  = if PROCESSING_CHUNK_SIZE <? length (page_step i t text)
    then page_step i t text
    else read_pages (S i) rest (page_step i t text).
Proof. reflexivity. Qed.

Lemma page_step_page i t text :
  (page_step i t text = text /\ textless (PageText t))
  \/ exists c t', t = Some (c :: t')
                  /\ page_step i t text = text ++ page_block i (c :: t').
Proof.
  destruct t as [[|c t']|]; simpl; unfold textless; eauto 6.
Qed.

Lemma page_step_cases i t text :
  page_step i t text = text
  \/ exists t', page_step i t text = text ++ page_block i t'.
Proof. destruct t as [[|c t']|]; simpl; eauto. Qed.

Lemma read_pages_prefix pages : forall i text,
  exists more, read_pages i pages text = text ++ more.
Proof.
  induction pages as [|pg pages IH]; intros i text.
  - exists []. rewrite app_nil_r. reflexivity.
  - destruct pg as [t|]; [|exists []; rewrite app_nil_r; reflexivity].
    rewrite read_pages_cons.
    destruct (page_step_cases i t text) as [-> | [t' ->]].
    + destruct (_ <? _); [exists []; rewrite app_nil_r; reflexivity|apply IH].
    + destruct (_ <? _); [eauto|].
      destruct (IH (S i) (text ++ page_block i t')) as [more ->].
      exists (page_block i t' ++ more). rewrite app_assoc. reflexivity.
Qed.

(** X1. A pass only adds to the text it starts from: what pdfplumber
    gathered stays in front of what PyPDF2 adds. *)
Theorem first_pass_kept f :
  exists more,
    gathered_text f = read_library (pdfplumber_view f) [] ++ more.
Proof.
  unfold gathered_text.
  destruct (length (read_library (pdfplumber_view f) [])
            <? MIN_CONTENT_LENGTH);
    [|exists []; rewrite app_nil_r; reflexivity].
  destruct (pypdf2_view f) as [|l]; [|apply read_pages_prefix].
  exists []. cbn [read_library]. rewrite app_nil_r. reflexivity.
Qed.

(** X2. When the pdfplumber pass alone gives more than
    [MIN_CONTENT_LENGTH] characters, the result is that text and no error,
    whatever PyPDF2 would do with the stream. *)
Theorem first_pass_sufficient v1 v2 :
  MIN_CONTENT_LENGTH < length (read_library v1 []) ->
  extract_text_from_pdf (PdfFile v1 v2) = (Some (read_library v1 []), None).
Proof.
  intros H. apply extract_success_iff. unfold gathered_text.
  cbn [pdfplumber_view pypdf2_view].
  replace (length (read_library v1 []) <? MIN_CONTENT_LENGTH) with false
    by (symmetry; apply Nat.ltb_ge; lia).
  auto.
Qed.

Lemma first_pass_sufficient_witness :
  MIN_CONTENT_LENGTH
  < length (read_library (Pages [PageText (Some (repeat 65%N 90))]) [])
  /\ extract_text_from_pdf
       (PdfFile (Pages [PageText (Some (repeat 65%N 90))]) OpenRaises)
     = (Some (read_library (Pages [PageText (Some (repeat 65%N 90))]) []),
        None).
Proof.
  assert (H : MIN_CONTENT_LENGTH
              < length (read_library
                          (Pages [PageText (Some (repeat 65%N 90))]) []))
    by (vm_compute; lia).
  split; [exact H|]. exact (first_pass_sufficient _ OpenRaises H).
Defined.

Lemma read_pages_overshoot pages : forall i text,
  length text <= PROCESSING_CHUNK_SIZE ->
  length (read_pages i pages text) <= PROCESSING_CHUNK_SIZE
  \/ exists base k t,
       read_pages i pages text = base ++ page_block (i + k) t
       /\ length base <= PROCESSING_CHUNK_SIZE
       /\ pages !! k = Some (PageText (Some t)).
Proof.
  induction pages as [|pg pages IH]; intros i text Hlen; [simpl; auto|].
  destruct pg as [t|]; [|simpl; auto]. rewrite read_pages_cons.
  assert (Hnext : forall text', length text' <= PROCESSING_CHUNK_SIZE ->
            length (read_pages (S i) pages text') <= PROCESSING_CHUNK_SIZE
            \/ exists base k t0,
                 read_pages (S i) pages text' = base ++ page_block (i + k) t0
                 /\ length base <= PROCESSING_CHUNK_SIZE
                 /\ (PageText t :: pages) !! k = Some (PageText (Some t0))).
  { intros text' H'. destruct (IH (S i) text' H')
      as [H | (base & k & t0 & E & Hb & Hk)]; [auto|].
    right. exists base, (S k), t0. rewrite Nat.add_succ_r. auto. }
  destruct (page_step_page i t text) as [[-> _] | (c & t' & -> & ->)].
  - destruct (_ <? _) eqn:E; [auto|]. apply Hnext, Hlen.
  - destruct (_ <? _) eqn:E.
    + right. exists text, 0, (c :: t'). rewrite Nat.add_0_r. auto.
    + apply Nat.ltb_ge in E. apply Hnext, E.
Qed.

(** X3. The early stop bounds the text: the gathered text is at most
    [PROCESSING_CHUNK_SIZE] characters long, or it is a text of at most that
    length followed by the block of one page of the document, the page at
    which the pass stopped. *)
Theorem gathered_text_overshoot f :
  length (gathered_text f) <= PROCESSING_CHUNK_SIZE
  \/ exists base j t l,
       gathered_text f = base ++ page_block j t
       /\ length base <= PROCESSING_CHUNK_SIZE
       /\ (pdfplumber_view f = Pages l \/ pypdf2_view f = Pages l)
       /\ l !! j = Some (PageText (Some t)).
Proof.
  pose proof chunk_above_min as Hmin.
  assert (H0 : forall v text, length text <= PROCESSING_CHUNK_SIZE ->
            length (read_library v text) <= PROCESSING_CHUNK_SIZE
            \/ exists base j t l,
                 read_library v text = base ++ page_block j t
                 /\ length base <= PROCESSING_CHUNK_SIZE
                 /\ v = Pages l
                 /\ l !! j = Some (PageText (Some t))).
  { intros [|l] text Ht; cbn [read_library]; [auto|].
    destruct (read_pages_overshoot l 0 text Ht)
      as [H | (base & k & t & E & Hb & Hk)]; [auto|].
    right. exists base, k, t, l. auto. }
  unfold gathered_text. destruct (_ <? _) eqn:E.
  - apply Nat.ltb_lt in E.
    destruct (H0 (pypdf2_view f) (read_library (pdfplumber_view f) []))
      as [H | (base & j & t & l & Hg & Hb & Hv & Hl)]; [lia|auto|].
    right. exists base, j, t, l. auto.
  - destruct (H0 (pdfplumber_view f) [])
      as [H | (base & j & t & l & Hg & Hb & Hv & Hl)];
      [simpl; lia|auto|].
    right. exists base, j, t, l. auto.
Qed.

(** X4. Once the text is longer than [PROCESSING_CHUNK_SIZE] the pass
    stops: the pages after that point are not read. *)
Theorem pages_after_stop_not_read l1 l2 : forall i text,
  length text <= PROCESSING_CHUNK_SIZE ->
  PROCESSING_CHUNK_SIZE < length (read_pages i l1 text) ->
  read_pages i (l1 ++ l2) text = read_pages i l1 text.
Proof.
  induction l1 as [|pg l1 IH]; intros i text Hlen Hstop; [simpl in *; lia|].
  destruct pg as [t|]; [|simpl in *; lia].
  change ((PageText t :: l1) ++ l2) with (PageText t :: l1 ++ l2).
  rewrite !read_pages_cons in *.
  destruct (_ <? _) eqn:E; [reflexivity|].
  apply Nat.ltb_ge in E. apply IH; assumption.
Qed.

Lemma pages_after_stop_not_read_witness :
  length (@nil N) <= PROCESSING_CHUNK_SIZE
  /\ PROCESSING_CHUNK_SIZE
     < length (read_pages 0 [PageText (Some (repeat 65%N 15000))] [])
  /\ read_pages 0 ([PageText (Some (repeat 65%N 15000))]
                   ++ [PageText (Some (lit "second page"))]) []
     = read_pages 0 [PageText (Some (repeat 65%N 15000))] [].
Proof.
  assert (H1 : length (@nil N) <= PROCESSING_CHUNK_SIZE) by (simpl; lia).
  assert (H2 : PROCESSING_CHUNK_SIZE
               < length (read_pages 0
                           [PageText (Some (repeat 65%N 15000))] []))
    by (apply Nat.ltb_lt; vm_compute; reflexivity).
  split; [exact H1|]. split; [exact H2|].
  exact (pages_after_stop_not_read _ [PageText (Some (lit "second page"))]
           0 [] H1 H2).
Defined.

(** X5. A page whose extraction raises ends the pass without losing the
    text of the pages before it; the pages after it are not read. *)
Theorem exception_keeps_text l1 l2 : forall i text,
  read_pages i (l1 ++ PageRaises :: l2) text = read_pages i l1 text.
Proof.
  induction l1 as [|pg l1 IH]; intros i text; [reflexivity|].
  destruct pg as [t|]; [|reflexivity].
  change ((PageText t :: l1) ++ PageRaises :: l2)
    with (PageText t :: l1 ++ PageRaises :: l2).
  rewrite !read_pages_cons.
  destruct (_ <? _); [reflexivity|apply IH].
Qed.

(** ** The request to the model *)

Lemma strip_ends_clean s :
  head_is is_space (strip s) = false
  /\ head_is is_space (rev (strip s)) = false.
Proof. apply strip_with_ends. Qed.

(** X6. Only the first [PROCESSING_CHUNK_SIZE] characters of the
    extracted text reach the model: text beyond them changes nothing. *)
Theorem prompt_uses_first_chunk model pdf_text extra ppt_title :
  PROCESSING_CHUNK_SIZE <= length pdf_text ->
  prompt_of (pdf_text ++ extra) ppt_title = prompt_of pdf_text ppt_title
  /\ generate_slide_structure model (pdf_text ++ extra) ppt_title
     = generate_slide_structure model pdf_text ppt_title.
Proof.
  intros H.
  assert (E : prompt_of (pdf_text ++ extra) ppt_title
              = prompt_of pdf_text ppt_title).
  { unfold prompt_of. rewrite take_app_le by exact H. reflexivity. }
  split; [exact E|]. unfold generate_slide_structure. rewrite E. reflexivity.
Qed.

Lemma prompt_uses_first_chunk_witness :
  PROCESSING_CHUNK_SIZE <= length (repeat 65%N 15000)
  /\ prompt_of (repeat 65%N 15000 ++ lit "more") (lit "Report")
     = prompt_of (repeat 65%N 15000) (lit "Report").
Proof.
  assert (H : PROCESSING_CHUNK_SIZE <= length (repeat 65%N 15000))
    by (apply Nat.leb_le; vm_compute; reflexivity).
  split; [exact H|].
  exact (proj1 (prompt_uses_first_chunk (fun _ => inl []) _ (lit "more")
                  (lit "Report") H)).
Defined.

(** X7. The prompt is the fixed text of 391 characters, the title twice
    (with its quotes) and at most [PROCESSING_CHUNK_SIZE] characters of the
    document. *)
Theorem prompt_length pdf_text ppt_title :
  length (prompt_of pdf_text ppt_title)
  = 391 + 2 * length ppt_title
    + Nat.min PROCESSING_CHUNK_SIZE (length pdf_text).
Proof.
  unfold prompt_of, quoted.
  repeat (rewrite ?length_app, ?length_take; cbn [length]).
  change (length (lit "You are an expert presentation designer. Based on the content below, create a PowerPoint structure for the title: ")) with 114.
  change (length (lit ".")) with 1.
  change (length (lit "PDF CONTENT:")) with 12.
  change (length (lit "Return exactly 5 slides in this format:")) with 39.
  change (length (lit "**Slide 1: [Title Slide]**")) with 26.
  change (length (lit "* **Title:** ")) with 13.
  change (length (lit "* **Subtitle:** ")) with 16.
  change (length (lit "[1-line summary]")) with 16.
  change (length (lit "**Slide 2: [Introduction]**")) with 27.
  change (length (lit "Intro title")) with 11.
  change (length (lit "* **Bullet Points:**")) with 20.
  change (length (lit "    * Bullet 1")) with 14.
  change (length (lit "    * Bullet 2")) with 14.
  change (length (lit "...repeat for 5 slides total.")) with 29.
  lia.
Qed.

(** X8. When the model replies, the function returns the reply without
    the whitespace at its two ends (and nothing else removed) and no error;
    when the call raises, it returns no text and the error
    [Structure generation failed: ] followed by the text of the
    exception. *)
Theorem structure_result_shape model pdf_text ppt_title :
  match model (prompt_of pdf_text ppt_title) with
  | inl reply =>
      exists pre s post,
        generate_slide_structure model pdf_text ppt_title = (Some s, None)
        /\ reply = pre ++ s ++ post
        /\ forallb is_space pre = true /\ forallb is_space post = true
        /\ head_is is_space s = false
        /\ head_is is_space (rev s) = false
  | inr e =>
      generate_slide_structure model pdf_text ppt_title
      = (None, Some (lit "Structure generation failed: " ++ e))
  end.
Proof.
  unfold generate_slide_structure.
  destruct (model (prompt_of pdf_text ppt_title)) as [reply|e];
    [|reflexivity].
  destruct (strip_with_parts is_space reply) as (pre & post & E & Hp & Hq).
  destruct (strip_ends_clean reply) as [H1 H2].
  exists pre, (strip reply), post. auto 7.
Qed.

(** ** The parser *)

Lemma parse_as_fragments s :
  parse_gemini_structure s
  = imap parse_fragment (tail (re_split header_re s)).
Proof. apply imap_fragments, re_split_length. Qed.

Lemma push_nonnil y l : push y l <> [].
Proof. destruct l; discriminate. Qed.

Lemma split_fuel_nonnil fuel p s : split_fuel fuel p s <> [].
Proof.
  destruct fuel as [|fuel]; [discriminate|]. rewrite split_fuel_S.
  destruct (match_here p s) as [[[[|x m] g] r]|];
    try discriminate; destruct s; try discriminate; apply push_nonnil.
Qed.

Lemma weave_push y l hs : l <> [] -> weave (push y l) hs = y :: weave l hs.
Proof. destruct l; [congruence|reflexivity]. Qed.

Lemma weave_fuel p : forall fuel s,
  length s < fuel ->
  weave (split_fuel fuel p s) (map fst (findall_fuel fuel p s)) = s.
Proof.
  induction fuel as [|fuel IH]; intros s Hs; [lia|].
  rewrite split_fuel_S, findall_fuel_S.
  assert (Hmiss : weave match s with
                        | [] => [[]]
                        | x :: s' => push x (split_fuel fuel p s')
                        end
                        (map fst match s with
                                 | [] => []
                                 | _ :: s' => findall_fuel fuel p s'
                                 end) = s).
  { destruct s as [|y s]; [reflexivity|].
    rewrite weave_push by apply split_fuel_nonnil.
    f_equal. apply IH. simpl in Hs. lia. }
  destruct (match_here p s) as [[[[|x m] g] r]|] eqn:Hm; try exact Hmiss.
  pose proof (match_here_shorter _ _ _ _ _ _ Hm) as Hlen.
  apply match_here_sound in Hm as [_ ->].
  cbn [map fst weave app]. rewrite IH by lia. reflexivity.
Qed.

(** X9. Nothing of the reply is lost between [slides] and [headers]: the
    fragments of [re.split] and the matches of [re.findall], taken in
    turn, give the text back. *)
Theorem split_findall_weave p s :
  weave (re_split p s) (re_findall p s) = s.
Proof. apply weave_fuel. lia. Qed.

Lemma bullets_clean_fuel : forall fuel s,
  Forall (fun b => forallb is_dot b = true /\ head_is is_space b = false)
         (map snd (findall_fuel fuel bullet_re s)).
Proof.
  induction fuel as [|fuel IH]; intros s; [constructor|].
  rewrite findall_fuel_S.
  assert (Hmiss : Forall
            (fun b => forallb is_dot b = true /\ head_is is_space b = false)
            (map snd match s with
                     | [] => []
                     | _ :: s' => findall_fuel fuel bullet_re s'
                     end)).
  { destruct s as [|y s]; [constructor|apply IH]. }
  destruct (match_here bullet_re s) as [[[[|x m] g] r]|] eqn:Hm;
    try exact Hmiss.
  rewrite match_bullet in Hm.
  destruct s as [|x' [|w t]]; try discriminate.
  destruct ((x' =? 42)%N && is_space w); [|discriminate].
  destruct (space_then_line t) as [[m1 g1] r1] eqn:Hs.
  simpl in Hm. injection Hm as <- <- <- <-.
  apply space_then_line_group in Hs as (ws & _ & _ & _ & Hdot & Hg).
  cbn [map snd]. constructor; [|apply IH].
  split; [exact Hdot|]. destruct g1; [reflexivity|exact Hg].
Qed.

Lemma little_succ_nonnil d : Decimal.Little.succ d <> Nil.
Proof. destruct d; discriminate. Qed.

Lemma to_little_uint_nonnil n : forall acc,
  acc <> Nil -> Nat.to_little_uint n acc <> Nil.
Proof.
  induction n as [|n IH]; intros acc H; simpl; [exact H|].
  apply IH, little_succ_nonnil.
Qed.

Lemma revapp_nonnil d : forall acc,
  d <> Nil -> Decimal.revapp d acc <> Nil.
Proof.
  assert (H : forall d acc, acc <> Nil -> Decimal.revapp d acc <> Nil).
  { clear d. induction d; intros acc Hacc; simpl; try exact Hacc;
      apply IHd; discriminate. }
  destruct d; intros acc Hd; simpl; try congruence; apply H; discriminate.
Qed.

Lemma str_of_nat_nonnil n : str_of_nat n <> [].
Proof.
  unfold str_of_nat, Nat.to_uint, Decimal.rev.
  assert (H : Decimal.revapp (Nat.to_little_uint n Decimal.zero) Nil <> Nil).
  { apply revapp_nonnil, to_little_uint_nonnil. discriminate. }
  destruct (Decimal.revapp _ _); [congruence| | | | | | | | | |];
    discriminate.
Qed.

Lemma title_clean i content :
  forallb is_dot (fst (parse_fragment i content)) = true
  /\ head_is is_space (fst (parse_fragment i content)) = false
  /\ head_is is_space (rev (fst (parse_fragment i content))) = false.
Proof.
  unfold parse_fragment. cbn [fst].
  destruct (re_search title_re content) as [[[m g] r]|] eqn:Hs.
  - apply re_search_Some in Hs as (pre & t & _ & Ht).
    rewrite match_title in Ht.
    destruct (is_prefix _ t); [|discriminate].
    destruct (space_then_line (drop 10 t)) as [[m1 g1] r1] eqn:Hl.
    simpl in Ht. injection Ht as _ <- _.
    apply space_then_line_group in Hl as (ws & _ & _ & _ & Hdot & _).
    destruct (strip_ends_clean g1) as [H1 H2].
    split; [apply forallb_strip_with, Hdot|auto].
  - pose proof (digit_chars (Nat.to_uint (i + 2))) as Hd.
    fold (str_of_nat (i + 2)) in Hd.
    pose proof (str_of_nat_nonnil (i + 2)) as Hne.
    split; [|split].
    + rewrite forallb_app. apply andb_true_intro. split; [reflexivity|].
      apply forallb_forall. intros c Hc.
      rewrite Forall_forall in Hd. apply list_elem_of_In in Hc.
      apply (Hd c Hc).
    + reflexivity.
    + rewrite rev_app_distr.
      destruct (rev (str_of_nat (i + 2))) as [|c l] eqn:E.
      * apply (f_equal (@rev N)) in E. rewrite rev_involutive in E.
        simpl in E. congruence.
      * simpl. rewrite Forall_forall in Hd. apply Hd.
        apply list_elem_of_In, in_rev. rewrite E. left. reflexivity.
Qed.

(** X10. Every title that the parser returns is a single line without
    whitespace at its ends. *)
Theorem parsed_titles_clean s :
  Forall (fun r => forallb is_dot (fst r) = true
                   /\ head_is is_space (fst r) = false
                   /\ head_is is_space (rev (fst r)) = false)
         (parse_gemini_structure s).
Proof.
  rewrite parse_as_fragments. apply Forall_lookup_2. intros i r Hr.
  rewrite list_lookup_imap in Hr.
  destruct (tail (re_split header_re s) !! i) as [content|];
    [|discriminate].
  simpl in Hr. injection Hr as <-. apply title_clean.
Qed.

(** X11. Every bullet that the parser returns is a single line (it holds
    no line feed) and does not start with whitespace. *)
Theorem parsed_bullets_clean s :
  Forall (fun r =>
            Forall (fun b => forallb is_dot b = true
                             /\ head_is is_space b = false) (snd r))
         (parse_gemini_structure s).
Proof.
  rewrite parse_as_fragments. apply Forall_lookup_2. intros i r Hr.
  rewrite list_lookup_imap in Hr.
  destruct (tail (re_split header_re s) !! i) as [content|];
    [|discriminate].
  simpl in Hr. injection Hr as <-. apply bullets_clean_fuel.
Qed.

Lemma header_no_start c t :
  not_star c = true -> match_here header_re (c :: t) = None.
Proof.
  intros Hc. unfold header_re, exactly. rewrite match_here_exact.
  change (is_prefix (lit "**Slide ") (c :: t))
    with ((c =? 42)%N && is_prefix (lit "*Slide ") t).
  apply negb_true_iff in Hc. rewrite Hc. reflexivity.
Qed.

Lemma tail_push y l : l <> [] -> tail (push y l) = tail l.
Proof. destruct l; [congruence|reflexivity]. Qed.

Lemma split_header_skip pre s :
  forallb not_star pre = true ->
  tail (split_fuel (S (length (pre ++ s))) header_re (pre ++ s))
  = tail (split_fuel (S (length s)) header_re s).
Proof.
  intros Hpre. induction pre as [|c pre IH]; [reflexivity|].
  cbn [forallb] in Hpre. apply andb_prop in Hpre as [Hc Hpre].
  change ((c :: pre) ++ s) with (c :: pre ++ s).
  rewrite split_miss
    by (intros x m g r; rewrite (header_no_start c _ Hc); discriminate).
  rewrite tail_push by apply split_fuel_nonnil. exact (IH Hpre).
Qed.

(** X12. What stands before the first header is dropped: a preamble
    without asterisk in front of a reply does not change the records. *)
Theorem preamble_ignored pre s :
  forallb not_star pre = true ->
  parse_gemini_structure (pre ++ s) = parse_gemini_structure s.
Proof.
  intros H. rewrite !parse_as_fragments. unfold re_split.
  rewrite (split_header_skip pre s H). reflexivity.
Qed.

Lemma preamble_ignored_witness :
  forallb not_star (lit "Here is the outline you asked for: ") = true
  /\ parse_gemini_structure
       (lit "Here is the outline you asked for: "
        ++ lit "**Slide 2: Goals** * grow")
     = parse_gemini_structure (lit "**Slide 2: Goals** * grow").
Proof.
  split; [vm_compute; reflexivity|].
  apply (preamble_ignored (lit "Here is the outline you asked for: ")).
  vm_compute. reflexivity.
Defined.

Lemma header_length h : is_header h -> 12 <= length h.
Proof.
  intros H. apply is_header_shape in H as (ds & body & -> & Hne & _).
  rewrite !length_app. cbn [length]. rewrite length_app.
  change (length (lit "**Slide ")) with 8. change (length (lit "**")) with 2.
  destruct ds; [congruence|]. simpl. lia.
Qed.

Lemma header_count_fuel : forall fuel s,
  12 * length (findall_fuel fuel header_re s) <= length s.
Proof.
  induction fuel as [|fuel IH]; intros s; [simpl; lia|].
  rewrite findall_fuel_S.
  assert (Hmiss : 12 * length match s with
                              | [] => []
                              | _ :: s' => findall_fuel fuel header_re s'
                              end <= length s).
  { destruct s as [|y s]; [simpl; lia|]. specialize (IH s). simpl. lia. }
  destruct (match_here header_re s) as [[[[|x m] g] r]|] eqn:Hm;
    try exact Hmiss.
  apply match_here_sound in Hm as [Hh ->].
  apply header_length in Hh. specialize (IH r).
  rewrite length_app. cbn [length] in *. lia.
Qed.

(** X13. A header takes at least 12 characters, so a reply of [n]
    characters gives at most [n / 12] records. *)
Theorem record_count_bound s :
  12 * length (parse_gemini_structure s) <= length s.
Proof.
  unfold parse_gemini_structure, re_findall.
  rewrite length_imap, length_map. apply header_count_fuel.
Qed.

Lemma title_no_start c t :
  not_star c = true -> match_here title_re (c :: t) = None.
Proof.
  intros Hc. rewrite match_title.
  change (is_prefix (lit "**Title:**") (c :: t))
    with ((c =? 42)%N && is_prefix (lit "*Title:**") t).
  apply negb_true_iff in Hc. rewrite Hc. reflexivity.
Qed.

Lemma title_search_skip pre t :
  forallb not_star pre = true ->
  re_search title_re (pre ++ t) = re_search title_re t.
Proof.
  intros Hpre. induction pre as [|c pre IH]; [reflexivity|].
  cbn [forallb] in Hpre. apply andb_prop in Hpre as [Hc Hpre].
  change ((c :: pre) ++ t) with (c :: pre ++ t). cbn [re_search].
  rewrite (title_no_start c _ Hc). exact (IH Hpre).
Qed.

(** X14. The title is the rest of the line after the first [**Title:**]
    label, stripped; whitespace after the label is skipped first, line
    feeds included, so a label at the end of a line takes the next line
    that is not blank as title. *)
Theorem title_after_label i pre ws line rest :
  forallb not_star pre = true ->
  forallb is_space ws = true ->
  line <> [] ->
  head_is is_space line = false ->
  forallb is_dot line = true ->
  head_is is_dot rest = false ->
  fst (parse_fragment i (pre ++ lit "**Title:**" ++ ws ++ line ++ rest))
  = strip line.
Proof.
  intros Hpre Hws Hne Hhead Hdot Hrest. unfold parse_fragment. cbn [fst].
  rewrite (title_search_skip pre _ Hpre).
  assert (Hm : match_here title_re (lit "**Title:**" ++ ws ++ line ++ rest)
               = Some (lit "**Title:**" ++ ws ++ line, line, rest)).
  { rewrite match_title.
    replace (is_prefix (lit "**Title:**")
               (lit "**Title:**" ++ ws ++ line ++ rest)) with true
      by (symmetry; apply is_prefix_spec; eauto).
    change 10 with (length (lit "**Title:**")). rewrite drop_app_length.
    unfold space_then_line.
    destruct (take_while_app_stop is_space ws (line ++ rest) Hws)
      as [-> ->].
    { intros y u E. destruct line as [|c l]; [congruence|].
      injection E as <- _. exact Hhead. }
    destruct (take_while_app_stop is_dot line rest Hdot) as [-> ->].
    { intros y u ->. exact Hrest. }
    reflexivity. }
  destruct (lit "**Title:**" ++ ws ++ line ++ rest) eqn:E;
    cbn [re_search]; rewrite Hm; reflexivity.
Qed.

Lemma title_after_label_witness :
  forallb not_star [10%N] = true
  /\ forallb is_space [32; 10; 32]%N = true
  /\ lit "Quarterly results  " <> []
  /\ head_is is_space (lit "Quarterly results  ") = false
  /\ forallb is_dot (lit "Quarterly results  ") = true
  /\ head_is is_dot (10%N :: lit "* Revenue") = false
  /\ fst (parse_fragment 0
            ([10%N] ++ lit "**Title:**" ++ [32; 10; 32]%N
             ++ lit "Quarterly results  " ++ 10%N :: lit "* Revenue"))
     = lit "Quarterly results".
Proof.
  split; [vm_compute; reflexivity|]. split; [vm_compute; reflexivity|].
  split; [vm_compute; discriminate|]. split; [vm_compute; reflexivity|].
  split; [vm_compute; reflexivity|]. split; [vm_compute; reflexivity|].
  change (lit "Quarterly results") with (strip (lit "Quarterly results  ")).
  apply (title_after_label 0 [10%N] [32; 10; 32]%N
           (lit "Quarterly results  ") (10%N :: lit "* Revenue"));
    vm_compute; try reflexivity; discriminate.
Defined.

(** ** The deck *)

Lemma slide_body_nonnil bs : slide_body bs <> [].
Proof. destruct bs; discriminate. Qed.

Lemma content_slides_ok l :
  forallb is_content_slide (map content_slide l) = true.
Proof.
  induction l as [|r l IH]; [reflexivity|]. cbn [map forallb].
  rewrite IH, andb_true_r. unfold content_slide, is_content_slide.
  destruct (slide_body (snd r)) eqn:E; [|reflexivity].
  destruct (slide_body_nonnil _ E).
Qed.

(** X15. Whatever the reply, the deck starts with the title slide and
    goes on with at least one and at most [MAX_SLIDES] content slides, each
    with at least one paragraph. *)
Theorem deck_shape ppt_title slide_structure now :
  2 <= length (presentation_slides ppt_title slide_structure now)
  /\ length (presentation_slides ppt_title slide_structure now)
     <= S MAX_SLIDES
  /\ head (presentation_slides ppt_title slide_structure now)
     = Some (TitleSlide ppt_title
               (lit "Generated on " ++ strftime_d_B_Y now))
  /\ forallb is_content_slide
       (tail (presentation_slides ppt_title slide_structure now)) = true.
Proof.
  unfold presentation_slides. cbn [length head tail].
  rewrite length_map, length_take.
  split; [|split; [lia|split; [reflexivity|apply content_slides_ok]]].
  destruct (parse_gemini_structure slide_structure); simpl; lia.
Qed.

Lemma parsed_records_single_line s :
  Forall (fun r => forallb is_dot (fst r) = true
                   /\ Forall (fun b => forallb is_dot b = true) (snd r))
         (parse_gemini_structure s).
Proof.
  rewrite parse_as_fragments. apply Forall_lookup_2. intros i r Hr.
  rewrite list_lookup_imap in Hr.
  destruct (tail (re_split header_re s) !! i) as [content|];
    [|discriminate].
  simpl in Hr. injection Hr as <-. split; [apply title_clean|].
  eapply Forall_impl; [apply bullets_clean_fuel|].
  intros b [H _]. exact H.
Qed.

Lemma record_single_lines r :
  forallb is_dot (fst r) = true ->
  Forall (fun b => forallb is_dot b = true) (snd r) ->
  single_lines (content_slide r).
Proof.
  destruct r as [t [|b bs]]; cbn [fst snd]; intros Ht Hb;
    unfold content_slide, single_lines; cbn [fst snd];
    (split; [exact Ht|]); [constructor; [reflexivity|constructor]|].
  unfold slide_body. apply Forall_map.
  eapply Forall_impl; [exact Hb|]. intros x Hx. cbn [p_text bullet_paragraph].
  unfold strip, strip_chars. apply forallb_strip_with, forallb_strip_with, Hx.
Qed.

(** X16. No title and no paragraph of a content slide holds a line feed,
    whatever the reply was: parsing and trimming give single lines. *)
Theorem deck_texts_single_line ppt_title slide_structure now :
  Forall single_lines (presentation_slides ppt_title slide_structure now).
Proof.
  unfold presentation_slides. constructor; [exact I|].
  apply Forall_map. apply Forall_take.
  pose proof (parsed_records_single_line slide_structure) as H.
  destruct (parse_gemini_structure slide_structure) as [|r l].
  - repeat constructor.
  - eapply Forall_impl; [exact H|].
    intros x [Ht Hb]. apply record_single_lines; assumption.
Qed.

(** ** Temporary files and the download *)

Lemma fresh_not_there (fs : gmap nat (option Deck)) :
  fs !! fresh (dom fs) = None.
Proof. apply not_elem_of_dom, is_fresh. Qed.

Lemma generate_fs_cases e now ppt_title edited
    (fs : gmap nat (option Deck)) :
  snd (generate_powerpoint e now ppt_title edited fs) = fs
  \/ exists x, snd (generate_powerpoint e now ppt_title edited fs)
               = <[fresh (dom fs) := x]> fs.
Proof.
  destruct e as [[|] [|] [|]]; try (right; eexists; reflexivity);
    unfold generate_powerpoint, create_presentation; cbn;
    rewrite ?insert_insert_eq; try (right; eexists; reflexivity).
  left. rewrite delete_insert_eq. apply delete_id, fresh_not_there.
Qed.

(** X17. The operation touches no file but its own temporary file: the
    files that were there are there unchanged afterwards, and the only name
    that can be new is the temporary one. *)
Theorem other_files_untouched e now ppt_title edited
    (fs : gmap nat (option Deck)) :
  fs ⊆ snd (generate_powerpoint e now ppt_title edited fs)
  /\ dom (snd (generate_powerpoint e now ppt_title edited fs))
     ⊆ dom fs ∪ {[fresh (dom fs)]}.
Proof.
  destruct (generate_fs_cases e now ppt_title edited fs) as [-> | [x ->]].
  - split; [reflexivity|apply union_subseteq_l].
  - split; [apply insert_subseteq, fresh_not_there|].
    rewrite dom_insert_L, (comm_L (∪)). reflexivity.
Qed.

(** X18. When saving and reading succeed, what is handed to the download
    is the deck that was built; the file is removed, unless [os.unlink]
    raises, which is swallowed and leaves the file in place. *)
Theorem download_is_saved_deck u now ppt_title edited
    (fs : gmap nat (option Deck)) :
  fst (generate_powerpoint (Faults false false u) now ppt_title edited fs)
  = Downloaded (Some (presentation_slides ppt_title edited now))
  /\ snd (generate_powerpoint (Faults false false false) now ppt_title
            edited fs) = fs
  /\ snd (generate_powerpoint (Faults false false true) now ppt_title
            edited fs) !! fresh (dom fs)
     = Some (Some (presentation_slides ppt_title edited now)).
Proof.
  split; [|split].
  - unfold generate_powerpoint, create_presentation. cbn.
    rewrite lookup_insert_eq. reflexivity.
  - rewrite temp_file_removed. reflexivity.
  - unfold generate_powerpoint, create_presentation. cbn.
    apply lookup_insert_eq.
Qed.

(** X19. The name of the download has no space, is five characters longer
    than the title and ends in [.pptx]. *)
Theorem download_file_name_shape ppt_title :
  forallb (fun c => negb (c =? 32)%N) (download_file_name ppt_title) = true
  /\ length (download_file_name ppt_title) = length ppt_title + 5
  /\ drop (length ppt_title) (download_file_name ppt_title) = lit ".pptx".
Proof.
  unfold download_file_name, replace_char. split; [|split].
  - rewrite forallb_app. apply andb_true_intro. split; [|reflexivity].
    induction ppt_title as [|c t IH]; [reflexivity|]. cbn [map forallb].
    rewrite IH, andb_true_r.
    destruct (c =? 32)%N eqn:E; [reflexivity|]. rewrite E. reflexivity.
  - rewrite length_app, length_map. reflexivity.
  - rewrite <- (length_map (fun c => if (c =? 32)%N then 95%N else c)
                  ppt_title) at 1.
    apply drop_app_length.
Qed.

(** ** Fragments without markup, and what the records depend on *)

Lemma plain_no_bullets content :
  forallb not_star content = true ->
  re_findall_group bullet_re content = [].
Proof.
  intros H. unfold re_findall_group.
  rewrite <- (app_nil_r content), bullet_skip by exact H.
  change (length (@nil N)) with 0. rewrite findall_nil. reflexivity.
Qed.

(** X20. A fragment without any asterisk still gives a record: the
    placeholder title [Slide {i+2}] and no bullet. *)
Theorem plain_fragment_record i content :
  forallb not_star content = true ->
  parse_fragment i content = (lit "Slide " ++ str_of_nat (i + 2), []).
Proof.
  intros H. unfold parse_fragment.
  rewrite (plain_no_bullets content H).
  rewrite <- (app_nil_r content), (title_search_skip content [] H).
  reflexivity.
Qed.

Lemma plain_fragment_record_witness :
  forallb not_star (lit " just some prose, no markup ") = true
  /\ parse_fragment 3 (lit " just some prose, no markup ")
     = (lit "Slide 5", []).
Proof.
  split; [vm_compute; reflexivity|].
  apply (plain_fragment_record 3 (lit " just some prose, no markup ")).
  vm_compute. reflexivity.
Defined.

(** X21. The records depend on the fragments after the headers only:
    neither the numbers and section names in the headers nor the text
    before the first header have any influence. *)
Theorem records_from_fragments_only s s' f f' fs hs hs' :
  header_layout s (f :: fs) hs ->
  header_layout s' (f' :: fs) hs' ->
  parse_gemini_structure s = parse_gemini_structure s'.
Proof.
  intros H H'. rewrite !parse_as_fragments.
  apply layout_scan in H as [-> _]. apply layout_scan in H' as [-> _].
  reflexivity.
Qed.

Lemma records_from_fragments_only_witness :
  header_layout (lit "**Slide 1: Intro** * a **Slide 2: End**")
    [[]; lit " * a "; []] [lit "**Slide 1: Intro**"; lit "**Slide 2: End**"]
  /\ header_layout (lit "* x **Slide 9: Other** * a **Slide 9:**")
       [lit "* x "; lit " * a "; []]
       [lit "**Slide 9: Other**"; lit "**Slide 9:**"]
  /\ parse_gemini_structure (lit "**Slide 1: Intro** * a **Slide 2: End**")
     = parse_gemini_structure (lit "* x **Slide 9: Other** * a **Slide 9:**").
Proof.
  assert (H : header_layout (lit "**Slide 1: Intro** * a **Slide 2: End**")
                [[]; lit " * a "; []]
                [lit "**Slide 1: Intro**"; lit "**Slide 2: End**"])
    by exact (header_layout_total
                (lit "**Slide 1: Intro** * a **Slide 2: End**")).
  assert (H' : header_layout (lit "* x **Slide 9: Other** * a **Slide 9:**")
                 [lit "* x "; lit " * a "; []]
                 [lit "**Slide 9: Other**"; lit "**Slide 9:**"])
    by exact (header_layout_total
                (lit "* x **Slide 9: Other** * a **Slide 9:**")).
  split; [exact H|]. split; [exact H'|].
  exact (records_from_fragments_only _ _ _ _ _ _ _ H H').
Defined.

Lemma read_pages_marker pages : forall i,
  read_pages i pages [] = []
  \/ exists k c t more,
       pages !! k = Some (PageText (Some (c :: t)))
       /\ Forall textless (take k pages)
       /\ read_pages i pages [] = page_block (i + k) (c :: t) ++ more.
Proof.
  induction pages as [|pg pages IH]; intros i; [left; reflexivity|].
  destruct pg as [t|]; [|left; reflexivity]. rewrite read_pages_cons.
  destruct (page_step_page i t []) as [[-> Ht] | (c & t' & -> & ->)].
  - destruct (_ <? _); [left; reflexivity|].
    destruct (IH (S i)) as [E | (k & c & t0 & more & Hk & Hbefore & E)];
      [left; exact E|].
    right. exists (S k), c, t0, more. rewrite Nat.add_succ_r.
    split; [exact Hk|]. split; [|exact E].
    cbn [take]. constructor; assumption.
  - right. cbn [app]. exists 0, c, t'. rewrite Nat.add_0_r.
    destruct (_ <? _).
    + exists []. rewrite app_nil_r. repeat split. constructor.
    + destruct (read_pages_prefix pages (S i) (page_block i (c :: t')))
        as [m ->].
      exists m. repeat split. constructor.
Qed.

(** X22. The gathered text is empty or starts with the marker block of
    the first page that has text, in the library that supplied it: two line
    feeds, [[Page N]] with that page's number, a line feed and the whole
    text of that page. *)
Theorem gathered_text_starts_with_marker f :
  gathered_text f = []
  \/ exists l j c t more,
       (pdfplumber_view f = Pages l \/ pypdf2_view f = Pages l)
       /\ l !! j = Some (PageText (Some (c :: t)))
       /\ Forall textless (take j l)
       /\ gathered_text f = page_block j (c :: t) ++ more.
Proof.
  assert (H0 : forall v, read_library v [] = []
            \/ exists l j c t more,
                 v = Pages l
                 /\ l !! j = Some (PageText (Some (c :: t)))
                 /\ Forall textless (take j l)
                 /\ read_library v [] = page_block j (c :: t) ++ more).
  { intros [|l]; [left; reflexivity|]. cbn [read_library].
    destruct (read_pages_marker l 0)
      as [E | (k & c & t & more & Hk & Hb & E)]; [left; exact E|].
    right. exists l, k, c, t, more. auto. }
  assert (H1 : forall v text, exists more, read_library v text = text ++ more).
  { intros [|l] text; [|apply read_pages_prefix].
    exists []. cbn [read_library]. rewrite app_nil_r. reflexivity. }
  unfold gathered_text.
  destruct (H0 (pdfplumber_view f))
    as [E | (l & j & c & t & m & Hv & Hl & Hb & E)]; rewrite E.
  - cbn [length]. change (0 <? MIN_CONTENT_LENGTH) with true. cbn iota.
    destruct (H0 (pypdf2_view f))
      as [E2 | (l & j & c & t & m & Hv & Hl & Hb & E2)]; [left; exact E2|].
    right. exists l, j, c, t, m. auto.
  - right. exists l, j, c, t.
    destruct (_ <? _); [|exists m; auto].
    destruct (H1 (pypdf2_view f) (page_block j (c :: t) ++ m)) as [more ->].
    exists (m ++ more). rewrite app_assoc. auto.
Qed.
